(** * gdrive_videoloader: a shallow embedding of [gdrive_videoloader.py]

    The script resolves a Google Drive identifier, parses the
    ampersand-delimited answer of the [get_video_info] endpoint and
    streams the video to a local file with byte-range resume.

    Python [str] values are sequences of Unicode code points; they are
    embedded as [list N], one number per code point, so that [len] is
    [length] and slicing is [take]/[drop].  Literals are written with
    [py "..."].  Printing, the network and the file system are threaded
    through an explicit [World]. *)

From Stdlib Require Import ZArith NArith Ascii String List Bool Lia.
From Stdlib Require Import Strings.Byte.
From stdpp Require Import base decidable option numbers list gmap pretty.

Local Open Scope N_scope.

Abbreviation str := (list N).
Abbreviation bytes := (list byte).

(** ** Python strings *)

Module Str.

Definition ord (a : ascii) : N := N_of_ascii a.

(** A literal of the source, code point by code point. *)
Definition py (s : string) : str := ord <$> list_ascii_of_string s.

(** The two quote characters, [chr(34)] and [chr(39)]. *)
Definition dquote : N := 34.
Definition squote : N := 39.

(** [s.startswith(prefix)] *)
Fixpoint startswith (s prefix : str) {struct prefix} : bool :=
  match prefix, s with
  | [], _ => true
  | _ :: _, [] => false
  | a :: prefix', b :: s' => (a =? b) && startswith s' prefix'
  end.

(** [needle in hay] *)
Fixpoint contains (hay needle : str) {struct hay} : bool :=
  startswith hay needle ||
  match hay with
  | [] => false
  | _ :: hay' => contains hay' needle
  end.

(** [s.split(sep)] for a one-character separator: never empty. *)
Fixpoint split (s : str) (sep : N) : list str :=
  match s with
  | [] => [[]]
  | c :: s' =>
      if c =? sep then [] :: split s' sep
      else match split s' sep with
           | [] => [[c]]
           | field :: fields => (c :: field) :: fields
           end
  end.

(** [fields[-1]] on the result of a [split]. *)
Definition last_field (fields : list str) : str := List.last fields [].

(** [s.replace(old, new)] for one-character [old] and [new]. *)
Definition replace (s : str) (old new : N) : str :=
  (λ c, if c =? old then new else c) <$> s.

(** The longest prefix of [s] made of characters in the class [p],
    and what follows it: a greedy [[class]*]. *)
Fixpoint span (p : N → bool) (s : str) : str * str :=
  match s with
  | [] => ([], [])
  | c :: s' =>
      if p c then let '(run, rest) := span p s' in (c :: run, rest)
      else ([], s)
  end.

(** [Py_UNICODE_ISSPACE]: the characters [str.strip()] removes and
    the regular-expression class [\s] matches on [str] patterns. *)
Definition isspace (c : N) : bool :=
  ((0x09 <=? c) && (c <=? 0x0D)) || ((0x1C <=? c) && (c <=? 0x20))
  || (c =? 0x85) || (c =? 0xA0) || (c =? 0x1680)
  || ((0x2000 <=? c) && (c <=? 0x200A))
  || (c =? 0x2028) || (c =? 0x2029) || (c =? 0x202F)
  || (c =? 0x205F) || (c =? 0x3000).

Definition lstrip (s : str) : str := snd (span isspace s).
Definition rstrip (s : str) : str := rev (lstrip (rev s)).

(** [s.strip()] *)
Definition strip (s : str) : str := rstrip (lstrip s).

(** [str(n)] for an integer. *)
Definition of_Z (n : Z) : str := py (pretty n).
Definition of_nat (n : nat) : str := py (pretty n).

(** [str(x)] for [None]-or-string, as an f-string prints it. *)
Definition of_optional (o : option str) : str :=
  match o with None => py "None" | Some s => s end.

(** Truthiness of a string: [bool(s)]. *)
Definition truthy (s : str) : bool :=
  match s with [] => false | _ :: _ => true end.

(** Truthiness of [None]-or-string. *)
Definition otruthy (o : option str) : bool :=
  match o with None => false | Some s => truthy s end.

Arguments ord : simpl never.
Arguments py : simpl never.

End Str.

Import Str.

(** ** [urllib.parse.unquote]

    The library function the script imports, with its defaults
    [encoding='utf-8'] and [errors='replace']. *)

Module Urllib.

(** The value of one character of [_hexdig]. *)
Definition hexval (c : N) : option N :=
  if (ord "0" <=? c) && (c <=? ord "9") then Some (c - ord "0")
  else if (ord "A" <=? c) && (c <=? ord "F") then Some (c - ord "A" + 10)
  else if (ord "a" <=? c) && (c <=? ord "f") then Some (c - ord "a" + 10)
  else None.

(** One item of [string.split(b'%')[1:]]: the byte [item[:2]] names
    followed by [item[2:]], or [b'%' + item] when [item[:2]] is not
    two hexadecimal digits. *)
Definition unquote_item (item : list N) : list N :=
  match item with
  | hi :: lo :: rest =>
      match hexval hi, hexval lo with
      | Some a, Some b => (16 * a + b) :: rest
      | _, _ => ord "%" :: item
      end
  | _ => ord "%" :: item
  end.

(** [unquote_to_bytes] on an ASCII string. *)
Definition unquote_to_bytes (s : str) : list N :=
  match split s (ord "%") with
  | [] | [_] => s
  | first :: items => first ++ concat (unquote_item <$> items)
  end.

Definition is_continuation (b : N) : bool := (0x80 <=? b) && (b <? 0xC0).

(** U+FFFD, what [errors='replace'] puts for each malformed piece. *)
Definition replacement : N := 0xFFFD.

(** [bytes.decode('utf-8', 'replace')]: a well-formed sequence gives
    its code point; otherwise the longest prefix that could still
    start a well-formed sequence (at least the lead byte) is replaced
    and decoding resumes right after it. *)
Fixpoint decode_utf8 (bs : list N) : str :=
  match bs with
  | [] => []
  | b0 :: r0 =>
      if b0 <? 0x80 then b0 :: decode_utf8 r0
      else if b0 <? 0xC2 then replacement :: decode_utf8 r0
      else if b0 <? 0xE0 then
        match r0 with
        | [] => [replacement]
        | b1 :: r1 =>
            if is_continuation b1
            then ((b0 - 0xC0) * 0x40 + (b1 - 0x80)) :: decode_utf8 r1
            else replacement :: decode_utf8 r0
        end
      else if b0 <? 0xF0 then
        match r0 with
        | [] => [replacement]
        | b1 :: r1 =>
            if is_continuation b1
               && negb (if b1 <? 0xA0 then b0 =? 0xE0 else b0 =? 0xED)
            then
              match r1 with
              | [] => [replacement]
              | b2 :: r2 =>
                  if is_continuation b2
                  then ((b0 - 0xE0) * 0x1000 + (b1 - 0x80) * 0x40
                        + (b2 - 0x80)) :: decode_utf8 r2
                  else replacement :: decode_utf8 r1
              end
            else replacement :: decode_utf8 r0
        end
      else if b0 <? 0xF5 then
        match r0 with
        | [] => [replacement]
        | b1 :: r1 =>
            if is_continuation b1
               && negb (if b1 <? 0x90 then b0 =? 0xF0 else b0 =? 0xF4)
            then
              match r1 with
              | [] => [replacement]
              | b2 :: r2 =>
                  if is_continuation b2 then
                    match r2 with
                    | [] => [replacement]
                    | b3 :: r3 =>
                        if is_continuation b3
                        then ((b0 - 0xF0) * 0x40000 + (b1 - 0x80) * 0x1000
                              + (b2 - 0x80) * 0x40 + (b3 - 0x80))
                             :: decode_utf8 r3
                        else replacement :: decode_utf8 r2
                    end
                  else replacement :: decode_utf8 r1
              end
            else replacement :: decode_utf8 r0
        end
      else replacement :: decode_utf8 r0
  end.

(** What one maximal ASCII run of the input becomes. *)
Definition unquote_run (run : str) : str :=
  decode_utf8 (unquote_to_bytes run).

(** The runs matched by [_asciire = '([\x00-\x7f]+)'] are unquoted,
    the characters between them are kept; [run] is the ASCII run
    being read. *)
Fixpoint unquote_parts (run s : str) : str :=
  match s with
  | [] => unquote_run run
  | c :: s' =>
      if c <=? 0x7f then unquote_parts (run ++ [c]) s'
      else unquote_run run ++ c :: unquote_parts [] s'
  end.

Definition unquote (s : str) : str :=
  if negb (existsb (N.eqb (ord "%")) s) then s
  else unquote_parts [] s.

End Urllib.

Import Urllib.

(** ** The world the script runs in *)

(** A request as [requests.get] sends it. *)
Record Request := {
  req_url : str;
  req_cookies : gmap str str;
  req_headers : gmap str str;
  req_stream : bool
}.

(** The fields of a [requests.Response] the script reads.
    [iter_content n] lists the chunks the body arrives in for chunk
    size [n], with the message of the transport error that ends the
    stream early, if one does. *)
Record Response := {
  status_code : Z;
  reason : str;
  url : str;
  text : str;
  cookies : gmap str str;
  content_length : option str;
  iter_content : Z → list bytes * option str
}.

(** [requests.get] returns a response or raises a
    [requests.exceptions.RequestException]. *)
Inductive Reply :=
| Answered (response : Response)
| Failed (message : str).

Inductive file_mode := wb | ab.

(** What reaches [sys.stdout]: printed lines and the progress bar. *)
Inductive Event :=
| Printed (line : str)
| PbarOpen (total initial : Z) (desc : str)
| PbarUpdate (n : Z)
| PbarClose.

(** What a path of the file system names: a regular file with its
    content, a directory, or a device such as [/dev/null], which takes
    what is written to it and keeps its size.  [os.path.getsize] gives
    the size of each. *)
Inductive Entry :=
| Regular (content : bytes)
| Directory (size : Z)
| Device (size : Z).

Definition entry_size (entry : Entry) : Z :=
  match entry with
  | Regular content => Z.of_nat (length content)
  | Directory size | Device size => size
  end.

(** What [open] raises when it refuses a path that is not a directory:
    an [OSError] (a missing parent directory, a permission, an empty or
    too long name) or the [ValueError] of a name that holds a null
    character. *)
Inductive OpenError := OpenOSError | OpenValueError.

(** [fs] holds what each existing path names, [opens] the calls to
    [open] so far (whether or not they went through), [sent] the
    requests so far; [net] is the remote side: its reply may depend on
    everything sent before; [open_error] tells for which paths and
    modes [open] raises.  An opened file takes every write. *)
Record World := {
  fs : gmap str Entry;
  stdout : list Event;
  sent : list Request;
  opens : list (str * file_mode);
  net : list Request → Request → Reply;
  open_error : str → file_mode → option OpenError
}.

(** The exceptions of a run.  [RequestException] stands for the
    exceptions of [requests], the ones the [except] clauses of the
    script catch; [OSError] for an [OSError] that is none of those, as
    [open] raises it. *)
Inductive exn :=
| RequestException (message : str)
| ValueError
| OSError.

(** A computation returns a value or raises, and changes the world. *)
Definition M (A : Type) : Type := World → (A + exn) * World.

#[global] Instance M_ret : MRet M := λ A (a : A) w, (inl a, w).

#[global] Instance M_bind : MBind M := λ A B (k : A → M B) (m : M A) w,
  match m w with
  | (inl a, w') => k a w'
  | (inr e, w') => (inr e, w')
  end.

Definition raise {A} (e : exn) : M A := λ w, (inr e, w).

Definition emit (ev : Event) : M unit := λ w,
  (inl (), {| fs := fs w; stdout := stdout w ++ [ev]; sent := sent w;
              opens := opens w; net := net w; open_error := open_error w |}).

(** [print(line)] *)
Definition print (line : str) : M unit := emit (Printed line).

(** [if cond: body] *)
Definition when (cond : bool) (body : M unit) : M unit :=
  if cond then body else mret ().

(** [for x in xs: body] *)
Fixpoint for_each {A} (xs : list A) (body : A → M unit) : M unit :=
  match xs with
  | [] => mret ()
  | x :: xs' => body x ;; for_each xs' body
  end.

(** [try: body / except requests.exceptions.RequestException as e: handler] *)
Definition try_except_request {A} (body : M A) (handler : str → M A) : M A :=
  λ w, match body w with
       | (inr (RequestException e), w') => handler e w'
       | outcome => outcome
       end.

(** [requests.get(url, stream=..., cookies=..., headers=...)] *)
Definition requests_get (url : str) (stream : bool)
    (cookies headers : gmap str str) : M Response := λ w,
  let request := {| req_url := url; req_cookies := cookies;
                    req_headers := headers; req_stream := stream |} in
  let w' := {| fs := fs w; stdout := stdout w; sent := sent w ++ [request];
               opens := opens w; net := net w; open_error := open_error w |} in
  match net w (sent w) request with
  | Answered response => (inl response, w')
  | Failed message => (inr (RequestException message), w')
  end.

(** [response.raise_for_status()] *)
Definition raise_for_status (response : Response) : M unit :=
  let status := status_code response in
  if (400 <=? status)%Z && (status <? 500)%Z then
    raise (RequestException (of_Z status ++ py " Client Error: "
                             ++ reason response ++ py " for url: "
                             ++ url response))
  else if (500 <=? status)%Z && (status <? 600)%Z then
    raise (RequestException (of_Z status ++ py " Server Error: "
                             ++ reason response ++ py " for url: "
                             ++ url response))
  else mret ().

(** [os.path.exists(filename)]: true for whatever the path names, a
    directory included. *)
Definition path_exists (filename : str) : M bool := λ w,
  (inl (bool_decide (is_Some (fs w !! filename))), w).

(** [os.path.getsize(filename)] *)
Definition getsize (filename : str) : M Z := λ w,
  match fs w !! filename with
  | Some entry => (inl (entry_size entry), w)
  | None => (inr OSError, w)
  end.

(** What [open(filename, mode)] raises in [w], if it raises: a
    directory cannot be opened for writing, and [open_error] tells
    what else is refused. *)
Definition open_failure (w : World) (filename : str) (mode : file_mode)
    : option exn :=
  match fs w !! filename with
  | Some (Directory _) => Some OSError
  | _ =>
      match open_error w filename mode with
      | Some OpenOSError => Some OSError
      | Some OpenValueError => Some ValueError
      | None => None
      end
  end.

(** What the path names once [open] went through: ['wb'] truncates a
    regular file or creates one, ['ab'] keeps what is there or creates
    a regular file. *)
Definition opened (existing : option Entry) (mode : file_mode) : Entry :=
  match existing, mode with
  | Some (Regular content), ab => Regular content
  | Some (Regular _), wb | None, _ => Regular []
  | Some other, _ => other
  end.

(** [open(filename, mode)] *)
Definition open (filename : str) (mode : file_mode) : M unit := λ w,
  match open_failure w filename mode with
  | Some e =>
      (inr e, {| fs := fs w; stdout := stdout w; sent := sent w;
                 opens := opens w ++ [(filename, mode)]; net := net w;
                 open_error := open_error w |})
  | None =>
      (inl (), {| fs := <[filename := opened (fs w !! filename) mode]> (fs w);
                  stdout := stdout w; sent := sent w;
                  opens := opens w ++ [(filename, mode)]; net := net w;
                  open_error := open_error w |})
  end.

(** What an entry is after [chunk] has been written to it. *)
Definition written (chunk : bytes) (entry : Entry) : Entry :=
  match entry with
  | Regular content => Regular (content ++ chunk)
  | other => other
  end.

(** [file.write(chunk)] on the file opened at [filename]. *)
Definition write (filename : str) (chunk : bytes) : M unit := λ w,
  (inl (), {| fs := alter (written chunk) filename (fs w);
              stdout := stdout w; sent := sent w; opens := opens w;
              net := net w; open_error := open_error w |}).

(** ** The identifier resolver *)

(** The class [[a-zA-Z0-9_-]]. *)
Definition is_id_char (c : N) : bool :=
  ((ord "a" <=? c) && (c <=? ord "z"))
  || ((ord "A" <=? c) && (c <=? ord "Z"))
  || ((ord "0" <=? c) && (c <=? ord "9"))
  || (c =? ord "_") || (c =? ord "-").

Definition file_d : str := py "/file/d/".

(** The pattern [/file/d/([a-zA-Z0-9_-]+)] tried at the start of [s];
    the result is group 1.  The group is the last item of the pattern,
    so the greedy [+] keeps the whole run. *)
Definition match_drive_pattern (s : str) : option str :=
  if startswith s file_d then
    let '(token, _) := span is_id_char (drop (length file_d) s) in
    if truthy token then Some token else None
  else None.

(** [re.search]: the match at the leftmost position that has one. *)
Fixpoint search_drive_pattern (s : str) : option str :=
  match match_drive_pattern s with
  | Some token => Some token
  | None =>
      match s with
      | [] => None
      | _ :: s' => search_drive_pattern s'
      end
  end.

Definition extract_drive_id (input_str : str) : str :=
  match search_drive_pattern input_str with
  | Some token => token
  | None => input_str
  end.

(** ** The folder lister *)

Definition is_quote (c : N) : bool := (c =? dquote) || (c =? squote).

Definition data_id : str := py "data-id".

(** The pattern of the folder lister tried at the start of [s]: the
    literal [data-id], [\s*], [=], [\s*], a quote of either kind, group
    1 (one or more characters that are not quotes) and a quote of either
    kind.  The result is group 1 and what follows the match.  No
    shorter choice of a greedy run can succeed: the character after a
    shortened [\s*] is a space, not [=] or a quote, and the one after a
    shortened group is not a quote. *)
Definition match_data_id_pattern (s : str) : option (str * str) :=
  if startswith s data_id then
    match lstrip (drop (length data_id) s) with
    | c :: s1 =>
        if c =? ord "=" then
          match lstrip s1 with
          | q :: s2 =>
              if is_quote q then
                let '(value, s3) := span (λ c, negb (is_quote c)) s2 in
                match s3 with
                | q' :: s4 =>
                    if truthy value && is_quote q' then Some (value, s4)
                    else None
                | [] => None
                end
              else None
          | [] => None
          end
        else None
    | [] => None
    end
  else None.

(** [re.findall]: the text is scanned left to right; a match gives its
    group and the scan resumes where the match ended, otherwise it
    moves one character on.  [skip] counts the characters of [s] that
    still belong to the last match. *)
Fixpoint findall_from (skip : nat) (s : str) : list str :=
  match s with
  | [] => []
  | _ :: s' =>
      match skip with
      | S skip' => findall_from skip' s'
      | O =>
          match match_data_id_pattern s with
          | Some (value, rest) =>
              value :: findall_from (length s' - length rest)%nat s'
          | None => findall_from 0 s'
          end
      end
  end.

Definition findall_data_id (text : str) : list str := findall_from 0 text.

(** The first definition of the folder lister (lines 19-47), which the
    later one of the same name replaces. *)
Module Shadowed.

Definition extract_bulk_data_ids_from_folder (url : str) (verbose : bool)
    : M (list str) :=
  when verbose (print (py "[INFO] Fetching folder URL: " ++ url)) ;;
  try_except_request
    (response ← requests_get url false ∅ ∅ ;
     raise_for_status response ;;
     let text := text response in
     let matches := findall_data_id text in
     let '(data_ids, seen) :=
       foldl (λ '((data_ids, seen) : list str * gset str) data_id,
                if (length data_id <? 5)%nat then (data_ids, seen)
                else if bool_decide (data_id ∉ seen)
                     then (data_ids ++ [data_id], seen ∪ {[data_id]})
                     else (data_ids, seen))
             ([], ∅) matches in
     when verbose
       (print (py "[INFO] Total unique data-ids found: "
               ++ of_nat (length data_ids))) ;;
     mret data_ids)
    (λ e, print (py "Error fetching folder URL: " ++ e) ;; mret []).

End Shadowed.

Definition create_bulk_video_id_drive_url (video_id : str) : str :=
  py "https://drive.google.com/u/0/get_video_info?docid=" ++ video_id
  ++ py "&drive_originator_app=303".

(** The raw string of line 56: less-than, greater-than, colon, double
    quote, slash, two backslashes (raw, so both are characters), bar,
    question mark, star. *)
Definition invalid : str := py "<>:" ++ [dquote] ++ py "/\\|?*".

(** [name] is the title, which may be [None]. *)
Definition sanitize_filename (name : option str) : option str :=
  match name with
  | None => None
  | Some name =>
      if negb (truthy name) then Some name
      else Some (strip (foldl (λ name ch, replace name ch (ord "_"))
                              name invalid))
  end.

(** The folder lister in effect (lines 78-110). *)
Definition extract_bulk_data_ids_from_folder (url : str) (verbose : bool)
    : M (list str) :=
  when verbose (print (py "[INFO] Fetching URL: " ++ url)) ;;
  try_except_request
    (response ← requests_get url false ∅ ∅ ;
     raise_for_status response ;;
     let text := text response in
     let matches := findall_data_id text in
     let '(data_ids, seen) :=
       foldl (λ '((data_ids, seen) : list str * gset str) data_id,
                if (length data_id <? 5)%nat then (data_ids, seen)
                else if bool_decide (data_id ∉ seen)
                     then (data_ids ++ [data_id], seen ∪ {[data_id]})
                     else (data_ids, seen))
             ([], ∅) matches in
     when verbose
       (print (py "[INFO] Total unique data-ids found: "
               ++ of_nat (length data_ids)) ;;
        for_each data_ids
          (λ id, print (py "[INFO] Found data-id: " ++ id))) ;;
     mret data_ids)
    (λ e, print (py "Error fetching URL: " ++ e) ;; mret []).

(** ** The stream locator *)

(** The loop over [contentList], with its [break]. *)
Fixpoint scan_contents (contentList : list str) (video title : option str)
    : option str * option str :=
  match contentList with
  | [] => (video, title)
  | content :: contentList' =>
      let '(video, title) :=
        if startswith content (py "title=") && negb (otruthy title) then
          (video, Some (unquote (last_field (split content (ord "=")))))
        else if contains content (py "videoplayback") && negb (otruthy video)
        then (Some (last_field (split (unquote content) (ord "|"))), title)
        else (video, title) in
      if otruthy video && otruthy title then (video, title)
      else scan_contents contentList' video title
  end.

Definition get_video_url (page_content : str) (verbose : bool)
    : M (option str * option str) :=
  when verbose (print (py "[INFO] Parsing video playback URL and title.")) ;;
  let contentList := split page_content (ord "&") in
  let '(video, title) := scan_contents contentList None None in
  when verbose
    (print (py "[INFO] Video URL: " ++ of_optional video) ;;
     print (py "[INFO] Video Title: " ++ of_optional title)) ;;
  mret (video, title).

(** ** The downloader *)

(** Line 72: [output_file if output_file else sanitize_filename(title)
    or video_id]. *)
Definition output_filename (output_file title : option str)
    (video_id : str) : str :=
  if otruthy output_file then default [] output_file
  else if otruthy (sanitize_filename title)
       then default [] (sanitize_filename title)
       else video_id.

Section Downloader.

(** [int(s)] on a string; [None] when it raises [ValueError]. *)
Variable int_of_str : str → option Z.

Definition download_file (url : str) (cookies : gmap str str)
    (filename : str) (chunk_size : Z) (verbose : bool) : M unit :=
  present ← path_exists filename ;
  '(headers, file_mode, downloaded_size) ←
    (if present : bool then
       downloaded_size ← getsize filename ;
       mret ({[ py "Range" := py "bytes=" ++ of_Z downloaded_size ++ py "-" ]},
             ab, downloaded_size)
     else mret ((∅ : gmap str str), wb, 0%Z)) ;
  when verbose
    (print (py "[INFO] Starting download from " ++ url) ;;
     when (0 <? downloaded_size)%Z
       (print (py "[INFO] Resuming download from byte "
               ++ of_Z downloaded_size))) ;;
  response ← requests_get url true cookies headers ;
  if ((status_code response =? 200) || (status_code response =? 206))%Z then
    declared ←
      match content_length response with
      | None => mret 0%Z
      | Some header =>
          match int_of_str header with
          | Some n => mret n
          | None => raise ValueError
          end
      end ;
    let total_size := (declared + downloaded_size)%Z in
    open filename file_mode ;;
    emit (PbarOpen total_size downloaded_size filename) ;;
    let '(chunks, failure) := iter_content response chunk_size in
    for_each chunks
      (λ chunk,
         match chunk with
         | [] => mret ()
         | _ :: _ =>
             write filename chunk ;;
             emit (PbarUpdate (Z.of_nat (length chunk)))
         end) ;;
    emit PbarClose ;;
    match failure with
    | Some message => raise (RequestException message)
    | None =>
        print ([10] ++ filename ++ py " downloaded successfully.")
    end
  else
    print (py "Error downloading " ++ filename ++ py ", status code: "
           ++ of_Z (status_code response)).

Definition download_from_video_id (video_id : str)
    (output_file : option str) (chunk_size : Z) (verbose : bool) : M unit :=
  let drive_url := create_bulk_video_id_drive_url video_id in
  when verbose (print (py "[INFO] Accessing " ++ drive_url)) ;;
  response ← requests_get drive_url false ∅ ∅ ;
  raise_for_status response ;;
  let page_content := text response in
  let cookies := cookies response in
  '(video, title) ← get_video_url page_content verbose ;
  let filename := output_filename output_file title video_id in
  if otruthy video then
    download_file (default [] video) cookies filename chunk_size verbose
  else
    print (py "Unable to retrieve the video URL for id " ++ video_id
           ++ py ".").

(** [for idx, data_id in enumerate(data_ids, 1)] of [main]. *)
Fixpoint download_each (data_ids : list str) (idx total : nat)
    (output_file : option str) (chunk_size : Z) (verbose : bool) : M unit :=
  match data_ids with
  | [] => mret ()
  | data_id :: data_ids' =>
      when verbose
        (print ([10] ++ py "[INFO] (" ++ of_nat idx ++ py "/"
                ++ of_nat total ++ py ") Processing id: " ++ data_id)) ;;
      try_except_request
        (download_from_video_id data_id output_file chunk_size verbose)
        (λ e, print (py "Error accessing video info for " ++ data_id
                     ++ py ": " ++ e)) ;;
      download_each data_ids' (S idx) total output_file chunk_size verbose
  end.

Definition main (video_id_or_url : str) (output_file : option str)
    (chunk_size : Z) (verbose : bool) : M unit :=
  if contains video_id_or_url (py "/folders/") then
    when verbose
      (print (py "[INFO] Detected folder URL, extracting data-ids from: "
              ++ video_id_or_url)) ;;
    data_ids ← extract_bulk_data_ids_from_folder video_id_or_url verbose ;
    match data_ids with
    | [] => print (py "No data-IDs found in folder URL.")
    | _ :: _ =>
        download_each data_ids 1 (length data_ids) output_file chunk_size
                      verbose
    end
  else
    let video_id := extract_drive_id video_id_or_url in
    when verbose (print (py "[INFO] Extracted video ID: " ++ video_id)) ;;
    try_except_request
      (download_from_video_id video_id output_file chunk_size verbose)
      (λ e, print (py "Error fetching video info: " ++ e)).

End Downloader.

(** ** Notions used by the statements *)

(** At index [i], [s] has the segment [/file/d/<token>]: [token] is a
    non-empty run of characters of [[a-zA-Z0-9_-]] that ends where the
    run ends. *)
Definition segment_at (s : str) (i : nat) (token : str) : Prop :=
  ∃ post,
    drop i s = file_d ++ token ++ post
    ∧ token ≠ []
    ∧ Forall (λ c, is_id_char c = true) token
    ∧ match post with [] => True | c :: _ => is_id_char c = false end.

(** The values of a sequence in order of first occurrence. *)
Fixpoint first_occurrences (values : list str) : list str :=
  match values with
  | [] => []
  | v :: values' => v :: filter (λ v', v' ≠ v) (first_occurrences values')
  end.

(** How often [v] occurs in [l]. *)
Definition occurrences (v : str) (l : list str) : nat :=
  length (filter (λ v', v' = v) l).

(** The request the folder lister sends for [url]. *)
Definition folder_request (url : str) : Request :=
  {| req_url := url; req_cookies := ∅; req_headers := ∅;
     req_stream := false |}.

(** The request the downloader sends for [url] when the local path
    names [existing]: a [Range] header from the size of what is there
    when the path exists, no header otherwise. *)
Definition download_request (url : str) (cookies : gmap str str)
    (existing : option Entry) : Request :=
  {| req_url := url; req_cookies := cookies;
     req_headers :=
       match existing with
       | Some entry =>
           {[ py "Range" := py "bytes=" ++ of_Z (entry_size entry) ++ py "-" ]}
       | None => ∅
       end;
     req_stream := true |}.

(** The mode the downloader opens the local path in. *)
Definition download_mode (existing : option Entry) : file_mode :=
  match existing with Some _ => ab | None => wb end.

(** What the local path names after a download that received [data]
    through an [open] that went through. *)
Definition received (existing : option Entry) (data : bytes) : Entry :=
  match existing with
  | Some entry => written data entry
  | None => Regular data
  end.

(** What the downloader prints under [verbose] before it sends its
    request. *)
Definition announced (url : str) (existing : option Entry) (verbose : bool)
    : list Event :=
  if verbose then
    Printed (py "[INFO] Starting download from " ++ url)
    :: match existing with
       | Some entry =>
           if (0 <? entry_size entry)%Z then
             [Printed (py "[INFO] Resuming download from byte "
                       ++ of_Z (entry_size entry))]
           else []
       | None => []
       end
  else [].

(** What the chunks of a transfer make the progress bar show. *)
Definition progress (chunks : list bytes) : list Event :=
  (λ chunk, PbarUpdate (Z.of_nat (length chunk)))
  <$> filter (λ chunk, chunk ≠ []) chunks.

(** The request the info fetch sends for [video_id]. *)
Definition info_request (video_id : str) : Request :=
  {| req_url := create_bulk_video_id_drive_url video_id; req_cookies := ∅;
     req_headers := ∅; req_stream := false |}.

(** The nine characters the spec lists as invalid in a file name:
    less-than, greater-than, colon, double quote, slash, backslash,
    bar, question mark, star. *)
Definition is_invalid (c : N) : bool :=
  existsb (N.eqb c) [60; 62; 58; 34; 47; 92; 124; 63; 42].

(** A title with each invalid character replaced by an underscore and
    the surrounding whitespace removed. *)
Definition cleaned (title : str) : str :=
  strip ((λ c, if is_invalid c then ord "_" else c) <$> title).

(** [s] begins with a [data-id] attribute as the lister reads one:
    [data-id], whitespace or none, [=], whitespace or none, a quote of
    either kind, the [value], which is not empty and holds no quote of
    either kind, and a quote of either kind; [rest] is what follows.
    The quote that ends the value need not be the one that opened
    it. *)
Definition attribute_at (s value rest : str) : Prop :=
  ∃ ws0 ws1 q q',
    s = data_id ++ ws0 ++ ord "=" :: ws1 ++ q :: value ++ q' :: rest
    ∧ Forall (λ c, isspace c = true) ws0
    ∧ Forall (λ c, isspace c = true) ws1
    ∧ is_quote q = true ∧ is_quote q' = true
    ∧ value ≠ []
    ∧ Forall (λ c, is_quote c = false) value.

(** The values met when the text is read from left to right: where an
    attribute begins its value is taken and the reading goes on after
    the attribute, elsewhere the reading moves one character on. *)
Inductive attribute_values : str → list str → Prop :=
| values_end : attribute_values [] []
| values_read (s value rest : str) (values : list str) :
    attribute_at s value rest →
    attribute_values rest values →
    attribute_values s (value :: values)
| values_skip (c : N) (s : str) (values : list str) :
    (∀ value rest, ¬ attribute_at (c :: s) value rest) →
    attribute_values s values →
    attribute_values (c :: s) values.

(** [s] begins with a [data-id] attribute whose value is quoted as
    HTML quotes one: the quote that opened the value ends it, and a
    quote of the other kind may stand inside. *)
Definition quoted_attribute_at (s value rest : str) : Prop :=
  ∃ ws0 ws1 q,
    s = data_id ++ ws0 ++ ord "=" :: ws1 ++ q :: value ++ q :: rest
    ∧ Forall (λ c, isspace c = true) ws0
    ∧ Forall (λ c, isspace c = true) ws1
    ∧ is_quote q = true
    ∧ q ∉ value.

(** A title with each of the nine invalid characters replaced by an
    underscore. *)
Definition underscored (title : str) : str :=
  (λ c, if is_invalid c then ord "_" else c) <$> title.

(** [name] is [s] without its surrounding whitespace: only whitespace
    was taken off at either end, and none is left there. *)
Definition stripped_of (s name : str) : Prop :=
  (∃ before after,
     s = before ++ name ++ after
     ∧ Forall (λ c, isspace c = true) before
     ∧ Forall (λ c, isspace c = true) after)
  ∧ (∀ c, head name = Some c → isspace c = false)
  ∧ (∀ c, last name = Some c → isspace c = false).

(** ** Sample data *)

(** The attribute [data-id] with [value] in double quotes. *)
Definition attr (value : str) : str :=
  py "data-id=" ++ [dquote] ++ value ++ [dquote].

(** A 200 answer with [body] as text and [chunks] as content. *)
Definition answer (body : str) (chunks : list bytes) : Response :=
  {| status_code := 200; reason := py "OK"; url := []; text := body;
     cookies := ∅; content_length := None;
     iter_content := λ _, (chunks, None) |}.

(** An answer with another status and nothing declared or sent. *)
Definition refusal (status : Z) : Response :=
  {| status_code := status; reason := []; url := []; text := [];
     cookies := ∅; content_length := None;
     iter_content := λ _, ([], None) |}.

(** A world with the entries [files], where [open] refuses nothing but
    directories, with [remote] as the remote side. *)
Definition world (files : gmap str Entry)
    (remote : list Request → Request → Reply) : World :=
  {| fs := files; stdout := []; sent := []; opens := []; net := remote;
     open_error := λ _ _, None |}.

(** Such a world whose remote side always gives [response]. *)
Definition serving (files : gmap str Entry) (response : Response) : World :=
  world files (λ _ _, Answered response).

Definition folder_url : str :=
  py "https://drive.google.com/drive/folders/1a2B3c".

(** A folder page where [x] (quoted either way) occurs twice and [ab]
    once. *)
Definition page_x_x_ab : str :=
  py "<div " ++ attr (py "x") ++ py "></div><div data-id='x'></div><div "
  ++ attr (py "ab") ++ py "></div>".

(** A folder page with two long values, the first repeated, and a
    short one. *)
Definition page_long : str :=
  py "<div " ++ attr (py "1AbCdE") ++ py "></div><div data-id = 'ab'>"
  ++ py "<div data-id='1AbCdE'></div><div " ++ attr (py "2FgHiJ") ++ py ">".

(** A folder page with [x] twice, [ab] once and a long value twice. *)
Definition page_x_x_ab_long : str :=
  page_x_x_ab ++ py "<div " ++ attr (py "1AbCdE")
  ++ py "></div><div data-id='1AbCdE'></div>".

(** A folder page whose one attribute has a double-quoted value with
    an apostrophe inside. *)
Definition page_mixed_quotes : str :=
  py "<div " ++ attr (py "abc'defgh") ++ py ">".

(** A world with no files whose remote side never answers. *)
Definition offline : World := world ∅ (λ _ _, Failed (py "unreachable")).

(** The info text of the stream locator's example. *)
Definition info_example : str :=
  py "a=1&title=My%20Video&foo=bar&xyz|https://host/videoplayback?id=2".

(** An info text whose title has invalid characters and a space at
    either end. *)
Definition info_spaced : str :=
  py "title=%20My%3AVideo%2FName%3F%20&u|https://host/videoplayback?id=2".

(** An [int] that reads plain decimal digits and refuses the rest. *)
Definition int_of_digits (s : str) : option Z :=
  if truthy s && forallb (λ c, (ord "0" <=? c) && (c <=? ord "9")) s
  then Some (foldl (λ n c, 10 * n + Z.of_N (c - ord "0"))%Z 0%Z s)
  else None.

Definition video_file : str := py "video.mp4".

Definition stream_url : str := py "https://host/videoplayback?id=2".

(** The message [raise_for_status] raises with, if it raises. *)
Definition http_error (response : Response) : option str :=
  let status := status_code response in
  if (400 <=? status)%Z && (status <? 500)%Z then
    Some (of_Z status ++ py " Client Error: " ++ reason response
          ++ py " for url: " ++ url response)
  else if (500 <=? status)%Z && (status <? 600)%Z then
    Some (of_Z status ++ py " Server Error: " ++ reason response
          ++ py " for url: " ++ url response)
  else None.

(** [body] holds [value] as the value of a [data-id] attribute: after
    [data-id], optional whitespace, [=], optional whitespace and a
    quote of either kind comes [value], not empty and free of quotes,
    and then a quote of either kind. *)
Definition occurs_as_attribute (body value : str) : Prop :=
  ∃ pre ws0 ws1 q q' post,
    body = pre ++ data_id ++ ws0 ++ ord "=" :: ws1 ++ q :: value ++ q' :: post
    ∧ Forall (λ c, isspace c = true) ws0
    ∧ Forall (λ c, isspace c = true) ws1
    ∧ is_quote q = true ∧ is_quote q' = true
    ∧ value ≠ []
    ∧ Forall (λ c, is_quote c = false) value.

(** An answer to a range request: status 206 with [chunks] as content,
    ended early by a transport error when [failure] says so. *)
Definition partial_answer (chunks : list bytes) (failure : option str)
    : Response :=
  {| status_code := 206; reason := py "Partial Content"; url := [];
     text := []; cookies := ∅; content_length := None;
     iter_content := λ _, (chunks, failure) |}.

(** Such an answer with a [content-length] header. *)
Definition partial_content (header : str) (chunks : list bytes)
    (failure : option str) : Response :=
  {| status_code := 206; reason := py "Partial Content"; url := [];
     text := []; cookies := ∅; content_length := Some header;
     iter_content := λ _, (chunks, failure) |}.

(** A remote side that breaks the first transfer after [first] and
    serves [second] to the request that follows. *)
Definition flaky (first second : list bytes) : list Request → Request → Reply :=
  λ history _,
    match history with
    | [] => Answered (partial_answer first (Some (py "connection reset")))
    | _ :: _ => Answered (partial_answer second None)
    end.

(** A 200 answer whose [content-length] header is not a number. *)
Definition garbled_length : Response :=
  {| status_code := 200; reason := py "OK"; url := []; text := [];
     cookies := ∅; content_length := Some (py "12 bytes");
     iter_content := λ _, ([], None) |}.

(** What the folder lister makes of the reply to its request. *)
Definition listing (reply : Reply) : list str :=
  match reply with
  | Failed _ => []
  | Answered response =>
      match http_error response with
      | Some _ => []
      | None =>
          first_occurrences
            (filter (λ v, (5 ≤ length v)%nat)
                    (findall_data_id (text response)))
      end
  end.

(** The requests of a run that are not streamed: the folder and info
    fetches. *)
Definition fetches (requests : list Request) : list Request :=
  filter (λ request, req_stream request = false) requests.

Definition share_url : str :=
  py "https://drive.google.com/file/d/1AbC_d-9/view?usp=sharing".

(** A remote side that serves [page] to the first request and refuses
    every later one with status 404. *)
Definition folder_then_refusals (page : str) : list Request → Request → Reply :=
  λ history _,
    match history with
    | [] => Answered (answer page [])
    | _ :: _ => Answered (refusal 404)
    end.

(** A remote side that gives [info] to the first request and [later]
    to every request after it. *)
Definition info_then (info later : Response) : list Request → Request → Reply :=
  λ history _,
    match history with
    | [] => Answered info
    | _ :: _ => Answered later
    end.

(** * Properties *)

(** ** Strings *)

Lemma startswith_app (s prefix : str) :
  startswith s prefix = true ↔ ∃ rest, s = prefix ++ rest.
Proof.
  revert s. induction prefix as [|a prefix IH]; intros s; simpl.
  - split; [intros _; by exists s | done].
  - destruct s as [|b s].
    + split; [done | intros [rest Hrest]; discriminate].
    + rewrite andb_true_iff, N.eqb_eq, IH. split.
      * intros [-> [rest ->]]. by exists rest.
      * intros [rest Hrest]. injection Hrest as -> ->. eauto.
Qed.

Lemma span_app (p : N → bool) (s : str) :
  s = (span p s).1 ++ (span p s).2.
Proof.
  induction s as [|c s IH]; simpl; [done|].
  destruct (p c); [|done].
  destruct (span p s) as [run rest]; simpl in *. by rewrite IH at 1.
Qed.

Lemma span_run (p : N → bool) (s : str) :
  Forall (λ c, p c = true) (span p s).1.
Proof.
  induction s as [|c s IH]; simpl; [constructor|].
  destruct (p c) eqn:Hc; [|constructor].
  destruct (span p s) as [run rest]; simpl in *. by constructor.
Qed.

Lemma span_rest (p : N → bool) (s : str) :
  match (span p s).2 with [] => True | c :: _ => p c = false end.
Proof.
  induction s as [|c s IH]; simpl; [done|].
  destruct (p c) eqn:Hc; [|done].
  by destruct (span p s) as [run rest].
Qed.

Lemma span_unique (p : N → bool) (run rest : str) :
  Forall (λ c, p c = true) run →
  match rest with [] => True | c :: _ => p c = false end →
  span p (run ++ rest) = (run, rest).
Proof.
  intros Hrun Hrest. induction Hrun as [|c run Hc _ IH]; simpl.
  - destruct rest as [|c rest]; [done|]. simpl. by rewrite Hrest.
  - by rewrite Hc, IH.
Qed.

Lemma truthy_nonempty (s : str) : truthy s = true ↔ s ≠ [].
Proof. by destruct s. Qed.

(** ** The identifier resolver *)

Lemma match_drive_pattern_segment (s token : str) :
  match_drive_pattern s = Some token ↔ segment_at s 0 token.
Proof.
  unfold match_drive_pattern, segment_at. rewrite drop_0. split.
  - destruct (startswith s file_d) eqn:Hpre; [|done].
    apply startswith_app in Hpre as [rest ->].
    rewrite drop_app_length.
    pose proof (span_app is_id_char rest) as Happ.
    pose proof (span_run is_id_char rest) as Hrun.
    pose proof (span_rest is_id_char rest) as Hrest.
    destruct (span is_id_char rest) as [run post]; simpl in *.
    destruct (truthy run) eqn:Hne; [|done].
    intros [= <-]. exists post. rewrite <- Happ.
    by rewrite <- truthy_nonempty.
  - intros (post & -> & Hne & Hrun & Hpost).
    assert (startswith (file_d ++ token ++ post) file_d = true) as ->
      by (apply startswith_app; eauto).
    rewrite drop_app_length, (span_unique _ _ _ Hrun Hpost).
    apply truthy_nonempty in Hne. by rewrite Hne.
Qed.

Lemma segment_at_S (c : N) (s : str) (i : nat) (token : str) :
  segment_at (c :: s) (S i) token ↔ segment_at s i token.
Proof. done. Qed.

Lemma search_drive_pattern_eq (s : str) :
  search_drive_pattern s =
  match match_drive_pattern s with
  | Some token => Some token
  | None => match s with [] => None | _ :: s' => search_drive_pattern s' end
  end.
Proof. by destruct s. Qed.

Lemma search_first_segment (s : str) (i : nat) (token : str) :
  segment_at s i token →
  (∀ j token', (j < i)%nat → ¬ segment_at s j token') →
  search_drive_pattern s = Some token.
Proof.
  revert s. induction i as [|i IH]; intros s Hseg Hfirst.
  - apply match_drive_pattern_segment in Hseg.
    by rewrite search_drive_pattern_eq, Hseg.
  - destruct s as [|c s].
    { destruct Hseg as (post & Hdrop & _). discriminate. }
    rewrite search_drive_pattern_eq.
    destruct (match_drive_pattern (c :: s)) as [token'|] eqn:Hhere.
    { apply match_drive_pattern_segment in Hhere.
      destruct (Hfirst 0%nat token'); [lia | done]. }
    apply IH; [done|]. intros j token' Hj Hseg'.
    apply (Hfirst (S j) token'); [lia | done].
Qed.

Lemma search_no_segment (s : str) :
  (∀ i token, ¬ segment_at s i token) → search_drive_pattern s = None.
Proof.
  induction s as [|c s IH]; intros Hnone.
  - rewrite search_drive_pattern_eq.
    destruct (match_drive_pattern []) as [token|] eqn:Hhere; [|done].
    apply match_drive_pattern_segment in Hhere. by destruct (Hnone 0%nat token).
  - rewrite search_drive_pattern_eq.
    destruct (match_drive_pattern (c :: s)) as [token|] eqn:Hhere.
    { apply match_drive_pattern_segment in Hhere.
      by destruct (Hnone 0%nat token). }
    apply IH. intros i token Hseg. by apply (Hnone (S i) token).
Qed.

Lemma search_some_segment (s token : str) :
  search_drive_pattern s = Some token → ∃ i, segment_at s i token.
Proof.
  induction s as [|c s IH]; rewrite search_drive_pattern_eq.
  - destruct (match_drive_pattern []) eqn:Hhere; [|done].
    intros [= ->]. exists 0%nat. by apply match_drive_pattern_segment.
  - destruct (match_drive_pattern (c :: s)) eqn:Hhere.
    + intros [= ->]. exists 0%nat. by apply match_drive_pattern_segment.
    + intros [i Hi]%IH. by exists (S i).
Qed.

Lemma search_id_chars (token : str) :
  Forall (λ c, is_id_char c = true) token → search_drive_pattern token = None.
Proof.
  induction 1 as [|c token Hc _ IH]; [done|].
  rewrite search_drive_pattern_eq.
  assert (match_drive_pattern (c :: token) = None) as ->; [|done].
  unfold match_drive_pattern.
  destruct (startswith (c :: token) file_d) eqn:Hpre; [|done].
  apply startswith_app in Hpre as [rest Hrest].
  change file_d with (ord "/" :: py "file/d/") in Hrest.
  injection Hrest as -> _. discriminate Hc.
Qed.

(** C5. When the input has a segment [/file/d/<token>] and no such
    segment starts before it, [extract_drive_id] returns exactly
    [<token>]; when the input has no such segment at all,
    [extract_drive_id] returns the input unchanged. *)
Theorem extract_drive_id_spec (input_str : str) :
  (∀ i token,
     segment_at input_str i token →
     (∀ j token', (j < i)%nat → ¬ segment_at input_str j token') →
     extract_drive_id input_str = token)
  ∧ ((∀ i token, ¬ segment_at input_str i token) →
     extract_drive_id input_str = input_str).
Proof.
  unfold extract_drive_id. split.
  - intros i token Hseg Hfirst.
    by rewrite (search_first_segment _ _ _ Hseg Hfirst).
  - intros Hnone. by rewrite (search_no_segment _ Hnone).
Qed.

(** C10. [extract_drive_id] is idempotent: a token it extracts is made
    of characters of [[a-zA-Z0-9_-]] only and so holds no [/file/d/]
    segment. *)
Theorem extract_drive_id_idempotent (input_str : str) :
  extract_drive_id (extract_drive_id input_str) = extract_drive_id input_str.
Proof.
  unfold extract_drive_id at 2 3.
  destruct (search_drive_pattern input_str) as [token|] eqn:Hsearch.
  - apply search_some_segment in Hsearch as (i & post & _ & _ & Hrun & _).
    unfold extract_drive_id. by rewrite (search_id_chars _ Hrun).
  - unfold extract_drive_id. by rewrite Hsearch.
Qed.

(** ** The folder lister *)

Lemma match_data_id_pattern_suffix (s value rest : str) :
  match_data_id_pattern s = Some (value, rest) →
  ∃ used, s = used ++ rest ∧ used ≠ [].
Proof.
  unfold match_data_id_pattern, lstrip.
  destruct (startswith s data_id) eqn:Hpre; [|done].
  apply startswith_app in Hpre as [s0 ->]. rewrite drop_app_length.
  pose proof (span_app isspace s0) as H0.
  destruct (span isspace s0) as [ws0 s1']; cbn [fst snd] in *.
  destruct s1' as [|c s1]; [done|].
  destruct (c =? ord "="); [|done].
  pose proof (span_app isspace s1) as H1.
  destruct (span isspace s1) as [ws1 s2']; cbn [fst snd] in *.
  destruct s2' as [|q s2]; [done|].
  destruct (is_quote q); [|done].
  pose proof (span_app (λ c, negb (is_quote c)) s2) as H2.
  destruct (span (λ c, negb (is_quote c)) s2) as [v s3]; cbn [fst snd] in *.
  destruct s3 as [|q' s4]; [done|].
  destruct (truthy v && is_quote q'); [|done].
  intros [= <- <-].
  exists (data_id ++ ws0 ++ [c] ++ ws1 ++ [q] ++ v ++ [q']). split.
  - rewrite H0, H1, H2. by rewrite <- !app_assoc.
  - discriminate.
Qed.

Lemma findall_from_skip (skip : nat) (s : str) :
  findall_from skip s = findall_from 0 (drop skip s).
Proof.
  revert skip. induction s as [|c s IH]; intros [|skip]; try done.
  simpl findall_from at 1. by rewrite IH.
Qed.

(** The scan of [re.findall], one step at a time. *)
Lemma findall_data_id_eq (s : str) :
  findall_data_id s =
  match match_data_id_pattern s with
  | Some (value, rest) => value :: findall_data_id rest
  | None =>
      match s with
      | [] => []
      | _ :: s' => findall_data_id s'
      end
  end.
Proof.
  unfold findall_data_id. destruct s as [|c s]; [reflexivity|].
  simpl findall_from at 1.
  destruct (match_data_id_pattern (c :: s)) as [[value rest]|] eqn:Hm;
    [|done].
  apply match_data_id_pattern_suffix in Hm as (used & Hused & Hne).
  destruct used as [|u used]; [done|]. injection Hused as _ ->.
  rewrite findall_from_skip. do 2 f_equal.
  rewrite length_app, Nat.add_sub. apply drop_app_length.
Qed.

(** The pattern of the lister matches at the start of [s] exactly when
    an attribute begins there, and gives its value and what follows. *)
Lemma attribute_at_match (s value rest : str) :
  attribute_at s value rest ↔ match_data_id_pattern s = Some (value, rest).
Proof.
  split.
  - intros (ws0 & ws1 & q & q' & -> & Hws0 & Hws1 & Hq & Hq' & Hne & Hvalue).
    unfold match_data_id_pattern, lstrip.
    rewrite (proj2 (startswith_app _ _)) by eauto.
    rewrite drop_app_length, (span_unique isspace ws0) by done.
    cbn [snd]. rewrite N.eqb_refl.
    rewrite (span_unique isspace ws1); cycle 1.
    { done. }
    { unfold is_quote in Hq.
      apply orb_true_iff in Hq as [->%N.eqb_eq | ->%N.eqb_eq]; done. }
    cbn [snd]. rewrite Hq.
    rewrite (span_unique (λ c, negb (is_quote c)) value); cycle 1.
    { eapply Forall_impl; [exact Hvalue|]. intros c Hc. cbv beta.
      by rewrite Hc. }
    { cbv beta. by rewrite Hq'. }
    apply truthy_nonempty in Hne. by rewrite Hne, Hq'.
  - unfold match_data_id_pattern, lstrip.
    destruct (startswith s data_id) eqn:Hpre; [|done].
    apply startswith_app in Hpre as [s0 ->]. rewrite drop_app_length.
    pose proof (span_app isspace s0) as H0.
    pose proof (span_run isspace s0) as Hws0.
    destruct (span isspace s0) as [ws0 s1']; cbn [fst snd] in *.
    destruct s1' as [|c s1]; [done|].
    destruct (N.eqb_spec c (ord "=")) as [->|]; [|done].
    pose proof (span_app isspace s1) as H1.
    pose proof (span_run isspace s1) as Hws1.
    destruct (span isspace s1) as [ws1 s2']; cbn [fst snd] in *.
    destruct s2' as [|q s2]; [done|].
    destruct (is_quote q) eqn:Hq; [|done].
    pose proof (span_app (λ c, negb (is_quote c)) s2) as H2.
    pose proof (span_run (λ c, negb (is_quote c)) s2) as Hvalue.
    destruct (span (λ c, negb (is_quote c)) s2) as [v s3]; cbn [fst snd] in *.
    destruct s3 as [|q' s4]; [done|].
    destruct (truthy v) eqn:Hv; [|done].
    destruct (is_quote q') eqn:Hq'; [|done].
    intros [= <- <-]. exists ws0, ws1, q, q'.
    split; [by rewrite H0, H1, H2|].
    repeat split; try done.
    + by apply truthy_nonempty.
    + eapply Forall_impl; [exact Hvalue|]. intros c Hc. cbv beta in Hc.
      by apply negb_true_iff in Hc.
Qed.

(** [re.findall] reads the text as [attribute_values] says, and no
    other reading is one. *)
Lemma attribute_values_findall (s : str) :
  attribute_values s (findall_data_id s).
Proof.
  remember (length s) as n eqn:Hn.
  revert s Hn. induction (lt_wf n) as [n _ IH]. intros s ->.
  rewrite findall_data_id_eq.
  destruct (match_data_id_pattern s) as [[value rest]|] eqn:Hm.
  - apply values_read with rest; [by apply attribute_at_match|].
    apply (IH (length rest)); [|done].
    apply match_data_id_pattern_suffix in Hm as (used & -> & Hused).
    rewrite length_app. destruct used; [done|]. cbn [length]. lia.
  - destruct s as [|c s]; [constructor|].
    apply values_skip.
    + intros value rest Hat%attribute_at_match. congruence.
    + apply (IH (length s)); [cbn [length]; lia | done].
Qed.

Lemma attribute_values_unique (s : str) (values : list str) :
  attribute_values s values → values = findall_data_id s.
Proof.
  induction 1 as [|s value rest values Hat _ IH|c s values Hnone _ IH].
  - done.
  - apply attribute_at_match in Hat.
    by rewrite findall_data_id_eq, Hat, IH.
  - rewrite findall_data_id_eq.
    destruct (match_data_id_pattern (c :: s)) as [[value rest]|] eqn:Hm;
      [|done].
    apply attribute_at_match in Hm. by destruct (Hnone value rest).
Qed.

Lemma filter_all {A} (P : A → Prop) `{∀ x, Decision (P x)} (l : list A) :
  (∀ x, x ∈ l → P x) → filter P l = l.
Proof.
  induction l as [|x l IH]; intros HP; [done|].
  rewrite filter_cons_True by (apply HP; left).
  f_equal. apply IH. intros y Hy. apply HP. by right.
Qed.

Section Collect.

(** The body of the loop over [matches], on the pair of [data_ids]
    and [seen]. *)
Local Abbreviation collect :=
  (λ '((data_ids, seen) : list str * gset str) data_id,
     if (length data_id <? 5)%nat then (data_ids, seen)
     else if bool_decide (data_id ∉ seen)
          then (data_ids ++ [data_id], seen ∪ {[data_id]})
          else (data_ids, seen)).

Local Abbreviation long := (λ v : str, (5 ≤ length v)%nat).

Lemma collect_first_occurrences (matches data_ids : list str)
    (seen : gset str) :
  (∀ v, v ∈ seen ↔ v ∈ data_ids) →
  (foldl collect (data_ids, seen) matches).1
  = data_ids
    ++ filter (λ v, v ∉ data_ids) (first_occurrences (filter long matches)).
Proof.
  revert data_ids seen.
  induction matches as [|v matches IH]; intros data_ids seen Hseen.
  { simpl. by rewrite app_nil_r. }
  simpl foldl.
  destruct (length v <? 5)%nat eqn:Hlen.
  { apply Nat.ltb_lt in Hlen. rewrite filter_cons_False by lia.
    by apply IH. }
  apply Nat.ltb_ge in Hlen. rewrite filter_cons_True by done.
  simpl first_occurrences. case_bool_decide as Hv.
  - rewrite (IH (data_ids ++ [v]) (seen ∪ {[v]})).
    + rewrite filter_cons_True by (by rewrite <- Hseen).
      rewrite <- app_assoc. simpl. do 2 f_equal.
      rewrite list_filter_filter. apply list_filter_iff. intros v'.
      rewrite elem_of_app, list_elem_of_singleton. tauto.
    + intros v'. rewrite elem_of_union, elem_of_singleton, elem_of_app,
        list_elem_of_singleton, Hseen. tauto.
  - rewrite (IH data_ids seen Hseen).
    rewrite filter_cons_False by (rewrite <- Hseen; tauto).
    f_equal. rewrite list_filter_filter. apply list_filter_iff.
    intros v'. split; [|tauto]. intros Hv'. split; [done|].
    intros ->. by apply Hv', Hseen.
Qed.

Lemma collect_from_empty (matches : list str) :
  (foldl collect ([], ∅) matches).1
  = first_occurrences (filter long matches).
Proof.
  rewrite collect_first_occurrences by set_solver.
  simpl. apply filter_all. intros v _. apply not_elem_of_nil.
Qed.

End Collect.

Lemma first_occurrences_elem_of (values : list str) (v : str) :
  v ∈ first_occurrences values ↔ v ∈ values.
Proof.
  induction values as [|v0 values IH]; simpl; [done|].
  rewrite !elem_of_cons, list_elem_of_filter, IH.
  destruct (decide (v = v0)); tauto.
Qed.

Lemma first_occurrences_NoDup (values : list str) :
  NoDup (first_occurrences values).
Proof.
  induction values as [|v values IH]; simpl; [constructor|].
  apply NoDup_cons. split.
  - rewrite list_elem_of_filter. tauto.
  - by apply NoDup_filter.
Qed.

Lemma occurrences_NoDup (v : str) (l : list str) :
  NoDup l → v ∈ l → occurrences v l = 1%nat.
Proof.
  unfold occurrences. induction 1 as [|v0 l Hv0 _ IH]; intros Hv.
  { by apply elem_of_nil in Hv. }
  apply elem_of_cons in Hv as [->|Hv].
  - rewrite filter_cons_True by done. simpl. f_equal.
    apply length_zero_iff_nil, elem_of_nil_inv. intros v'.
    rewrite list_elem_of_filter. intros [-> ?]. done.
  - rewrite filter_cons_False; [by apply IH|]. intros <-. done.
Qed.

Lemma occurrences_absent (v : str) (l : list str) :
  v ∉ l → occurrences v l = 0%nat.
Proof.
  intros Hv. unfold occurrences.
  apply length_zero_iff_nil, elem_of_nil_inv. intros v'.
  rewrite list_elem_of_filter. intros [-> ?]. done.
Qed.

Lemma raise_for_status_ok (response : Response) (w : World) :
  ¬ (400 ≤ status_code response < 600)%Z →
  raise_for_status response w = (inl (), w).
Proof.
  intros Hok. unfold raise_for_status.
  destruct ((400 <=? _)%Z && (_ <? 500)%Z) eqn:H4; [lia|].
  destruct ((500 <=? _)%Z && (_ <? 600)%Z) eqn:H5; [lia|]. done.
Qed.

Lemma raise_for_status_error (response : Response) (w : World) :
  (400 ≤ status_code response < 600)%Z →
  ∃ e, raise_for_status response w = (inr (RequestException e), w).
Proof.
  intros Herr. unfold raise_for_status.
  destruct ((400 <=? _)%Z && (_ <? 500)%Z) eqn:H4; [by eexists|].
  destruct ((500 <=? _)%Z && (_ <? 600)%Z) eqn:H5; [by eexists|]. lia.
Qed.

Lemma for_each_print {A} (xs : list A) (line : A → str) (w : World) :
  for_each xs (λ x, print (line x)) w
  = (inl (), {| fs := fs w; stdout := stdout w ++ (Printed ∘ line <$> xs);
                sent := sent w; opens := opens w; net := net w;
                open_error := open_error w |}).
Proof.
  revert w. induction xs as [|x xs IH]; intros w.
  - simpl. unfold mret, M_ret. rewrite app_nil_r. by destruct w.
  - simpl. unfold mbind, M_bind, print, emit. rewrite IH. simpl.
    by rewrite <- app_assoc.
Qed.

Lemma lister_fetched (url : str) (verbose : bool) (w : World)
    (response : Response) :
  net w (sent w) (folder_request url) = Answered response →
  ¬ (400 ≤ status_code response < 600)%Z →
  (extract_bulk_data_ids_from_folder url verbose w).1
  = inl (first_occurrences
           (filter (λ v, (5 ≤ length v)%nat)
                   (findall_data_id (text response)))).
Proof.
  intros Hnet Hok. rewrite <- collect_from_empty.
  unfold extract_bulk_data_ids_from_folder, try_except_request, requests_get,
    when, mbind, M_bind, mret, M_ret.
  destruct verbose; simpl; fold (folder_request url); rewrite Hnet;
    rewrite raise_for_status_ok by done;
    destruct (foldl _ _ _) as [data_ids seen]; simpl; [|done].
  by rewrite for_each_print.
Qed.
Lemma lister_request_failed (url : str) (verbose : bool) (w : World)
    (message : str) :
  net w (sent w) (folder_request url) = Failed message →
  (extract_bulk_data_ids_from_folder url verbose w).1 = inl [].
Proof.
  intros Hnet.
  unfold extract_bulk_data_ids_from_folder, try_except_request, requests_get,
    when, mbind, M_bind, mret, M_ret.
  destruct verbose; simpl; fold (folder_request url); by rewrite Hnet.
Qed.

(** C6, as the code has it.  For every successfully fetched folder
    body there is exactly one sequence of values met when the body is
    read from left to right for [data-id] attributes, a value ending at
    the first quote of either kind, and the folder lister returns that
    sequence in order of first occurrence, without the values shorter
    than 5 and without the duplicates; no element appears twice and
    every element has length at least 5. *)
Theorem folder_listing_first_occurrences (url : str) (verbose : bool)
    (w : World) (response : Response) :
  net w (sent w) (folder_request url) = Answered response →
  ¬ (400 ≤ status_code response < 600)%Z →
  ∃ data_ids values,
    (extract_bulk_data_ids_from_folder url verbose w).1 = inl data_ids
    ∧ attribute_values (text response) values
    ∧ (∀ values', attribute_values (text response) values' → values' = values)
    ∧ data_ids
      = first_occurrences (filter (λ v, (5 ≤ length v)%nat) values)
    ∧ NoDup data_ids
    ∧ Forall (λ v, (5 ≤ length v)%nat) data_ids.
Proof.
  intros Hnet Hok. eexists. exists (findall_data_id (text response)).
  split; [by apply lister_fetched|].
  split; [apply attribute_values_findall|].
  split; [apply attribute_values_unique|].
  split; [done|]. split; [apply first_occurrences_NoDup|].
  apply Forall_forall. intros v Hv.
  apply first_occurrences_elem_of, list_elem_of_filter in Hv. tauto.
Qed.

Lemma folder_listing_first_occurrences_witness :
  attribute_values page_long
    [py "1AbCdE"; py "ab"; py "1AbCdE"; py "2FgHiJ"]
  ∧ (extract_bulk_data_ids_from_folder folder_url true
       (serving ∅ (answer page_long []))).1
    = inl [py "1AbCdE"; py "2FgHiJ"].
Proof.
  destruct (folder_listing_first_occurrences folder_url true
              (serving ∅ (answer page_long [])) (answer page_long []))
    as (data_ids & values & Hrun & Hvalues & _ & Hids & _).
  - reflexivity.
  - simpl. lia.
  - apply attribute_values_unique in Hvalues as Hfound.
    vm_compute in Hfound. subst values.
    split; [exact Hvalues|]. rewrite Hrun, Hids. vm_compute. reflexivity.
Defined.

(** C6, as stated, fails: the double-quoted value [abc'defgh] has 9
    characters, but the lister ends it at the apostrophe, reads [abc]
    and, that being shorter than 5, lists nothing. *)
Lemma folder_listing_mixed_quotes :
  quoted_attribute_at (drop 5 page_mixed_quotes) (py "abc'defgh") (py ">")
  ∧ (5 ≤ length (py "abc'defgh"))%nat
  ∧ attribute_values page_mixed_quotes [py "abc"]
  ∧ (extract_bulk_data_ids_from_folder folder_url false
       (serving ∅ (answer page_mixed_quotes []))).1 = inl [].
Proof.
  split; [|split; [|split]].
  - exists [], [], dquote. repeat split; try done.
    intros Hin. vm_compute in Hin.
    repeat (apply elem_of_cons in Hin as [Hin|Hin]; [discriminate Hin|]).
    by apply elem_of_nil in Hin.
  - vm_compute. lia.
  - pose proof (attribute_values_findall page_mixed_quotes) as Hvalues.
    vm_compute in Hvalues. exact Hvalues.
  - vm_compute. reflexivity.
Qed.

(** C3, as the code has it.  For every successfully fetched folder
    body, the folder listing omits every value shorter than 5
    characters, so it omits both [x] (length 1) and [ab] (length 2)
    however often they occur; a value of length at least 5 that is met
    when the body is read from left to right for [data-id] attributes
    is output exactly once, repeated or not. *)
Theorem folder_listing_short_omitted (url : str) (verbose : bool)
    (w : World) (response : Response) :
  net w (sent w) (folder_request url) = Answered response →
  ¬ (400 ≤ status_code response < 600)%Z →
  ∃ data_ids,
    (extract_bulk_data_ids_from_folder url verbose w).1 = inl data_ids
    ∧ (∀ v, (length v < 5)%nat → v ∉ data_ids)
    ∧ (py "x" ∉ data_ids)
    ∧ (py "ab" ∉ data_ids)
    ∧ (∀ values v,
         attribute_values (text response) values →
         v ∈ values → (5 ≤ length v)%nat →
         occurrences v data_ids = 1%nat).
Proof.
  intros Hnet Hok. eexists. split; [by apply lister_fetched|].
  assert (∀ v, (length v < 5)%nat →
               v ∉ first_occurrences
                     (filter (λ v, (5 ≤ length v)%nat)
                             (findall_data_id (text response)))) as Hshort.
  { intros v Hlen Hv.
    apply first_occurrences_elem_of, list_elem_of_filter in Hv. lia. }
  split; [done|]. split; [apply Hshort; simpl; lia|].
  split; [apply Hshort; simpl; lia|].
  intros values v ->%attribute_values_unique Hv Hlen.
  apply occurrences_NoDup; [apply first_occurrences_NoDup|].
  by apply first_occurrences_elem_of, list_elem_of_filter.
Qed.

Lemma folder_listing_short_omitted_witness :
  attribute_values page_x_x_ab_long
    [py "x"; py "x"; py "ab"; py "1AbCdE"; py "1AbCdE"]
  ∧ ∃ data_ids,
      (extract_bulk_data_ids_from_folder folder_url false
         (serving ∅ (answer page_x_x_ab_long []))).1 = inl data_ids
      ∧ occurrences (py "x") data_ids = 0%nat
      ∧ occurrences (py "ab") data_ids = 0%nat
      ∧ occurrences (py "1AbCdE") data_ids = 1%nat.
Proof.
  pose proof (attribute_values_findall page_x_x_ab_long) as Hvalues.
  vm_compute in Hvalues. split; [exact Hvalues|].
  destruct (folder_listing_short_omitted folder_url false
              (serving ∅ (answer page_x_x_ab_long []))
              (answer page_x_x_ab_long []))
    as (data_ids & Hrun & _ & Hx & Hab & Hlong).
  - reflexivity.
  - simpl. lia.
  - exists data_ids. split; [exact Hrun|].
    split; [by apply occurrences_absent|].
    split; [by apply occurrences_absent|].
    apply (Hlong _ _ Hvalues).
    + apply list_elem_of_lookup_2 with 3%nat. reflexivity.
    + vm_compute. lia.
Defined.

(** C3, as stated, fails: on a successfully fetched page where
    [data-id] is [x] twice and [ab] once, the listing is empty, so [x]
    is output zero times, not once. *)
Lemma folder_listing_x_not_listed :
  attribute_values page_x_x_ab [py "x"; py "x"; py "ab"]
  ∧ (extract_bulk_data_ids_from_folder folder_url false
       (serving ∅ (answer page_x_x_ab []))).1 = inl []
  ∧ occurrences (py "x") [] ≠ 1%nat.
Proof.
  split; [|split].
  - pose proof (attribute_values_findall page_x_x_ab) as Hvalues.
    vm_compute in Hvalues. exact Hvalues.
  - vm_compute. reflexivity.
  - vm_compute. lia.
Qed.

(** ** The stream locator *)

Lemma split_nonempty (s : str) (sep : N) : split s sep ≠ [].
Proof.
  destruct s as [|c s]; simpl; [done|].
  destruct (c =? sep); [done|]. by destruct (split s sep).
Qed.

Lemma split_no_sep (s : str) (sep : N) : sep ∉ s → split s sep = [s].
Proof.
  induction s as [|c s IH]; intros Hsep; simpl; [done|].
  apply not_elem_of_cons in Hsep as [Hc Hs].
  destruct (c =? sep) eqn:Heq.
  - apply N.eqb_eq in Heq. congruence.
  - by rewrite IH.
Qed.

Lemma last_field_app (fields fields' : list str) :
  fields' ≠ [] → last_field (fields ++ fields') = last_field fields'.
Proof.
  intros Hne. induction fields as [|field fields IH]; [done|].
  simpl. rewrite <- IH. unfold last_field. simpl.
  destruct (fields ++ fields') eqn:Happ; [|done].
  by apply app_eq_nil in Happ as [_ ?].
Qed.

Lemma split_app (a b : str) (sep : N) :
  ∃ fields, split (a ++ sep :: b) sep = fields ++ split b sep ∧ fields ≠ [].
Proof.
  induction a as [|c a (fields & IH & Hne)]; simpl.
  - rewrite N.eqb_refl. by exists [[]].
  - rewrite IH. destruct (c =? sep).
    + by exists ([] :: fields).
    + destruct fields as [|field fields]; [done|]. simpl.
      by exists ((c :: field) :: fields).
Qed.

(** What follows the last separator is the last field. *)
Lemma last_field_split_app (a b : str) (sep : N) :
  last_field (split (a ++ sep :: b) sep) = last_field (split b sep).
Proof.
  destruct (split_app a b sep) as (fields & -> & _).
  apply last_field_app, split_nonempty.
Qed.

(** The last field is never longer than the string it is split from. *)
Lemma last_field_split_length (s : str) (sep : N) :
  (length (last_field (split s sep)) ≤ length s)%nat.
Proof.
  remember (length s) as n eqn:Hn.
  revert s Hn. induction (lt_wf n) as [n _ IH]. intros s ->.
  destruct (decide (sep ∈ s)) as [Hin|Hout].
  - apply list_elem_of_split in Hin as (a & b & ->).
    rewrite last_field_split_app, length_app. cbn [length].
    specialize (IH (length b)). etrans; [apply IH; [|done]|];
      rewrite ?length_app; cbn [length]; lia.
  - by rewrite split_no_sep.
Qed.

(** What follows the last separator is all that follows the first one
    exactly when there is no second one. *)
Lemma last_field_is_remainder (a b : str) (sep : N) :
  last_field (split (a ++ sep :: b) sep) = b ↔ sep ∉ b.
Proof.
  rewrite last_field_split_app. split.
  - intros Hlast Hin. apply list_elem_of_split in Hin as (b1 & b2 & ->).
    rewrite last_field_split_app in Hlast.
    pose proof (last_field_split_length b2 sep) as Hlen.
    rewrite Hlast, length_app in Hlen. cbn [length] in Hlen. lia.
  - intros Hout. by rewrite split_no_sep.
Qed.

Lemma get_video_url_result (page_content : str) (verbose : bool) (w : World) :
  (get_video_url page_content verbose w).1
  = inl (scan_contents (split page_content (ord "&")) None None).
Proof.
  unfold get_video_url, when, print, emit, mbind, M_bind, mret, M_ret.
  destruct verbose; simpl;
    by destruct (scan_contents _ _ _) as [video title].
Qed.

Section Scan.

Local Abbreviation is_title content := (startswith content (py "title=")).
Local Abbreviation has_video content :=
  (contains content (py "videoplayback")).

(** One turn of the loop. *)
Lemma scan_contents_cons (content : str) (contents : list str)
    (video title : option str) :
  scan_contents (content :: contents) video title =
  let found :=
    if is_title content && negb (otruthy title) then
      (video, Some (unquote (last_field (split content (ord "=")))))
    else if has_video content && negb (otruthy video) then
      (Some (last_field (split (unquote content) (ord "|"))), title)
    else (video, title) in
  if otruthy found.1 && otruthy found.2 then found
  else scan_contents contents found.1 found.2.
Proof.
  cbn [scan_contents].
  destruct (is_title content && negb (otruthy title)); [done|].
  by destruct (has_video content && negb (otruthy video)).
Qed.

Lemma scan_before_title (before rest : list str) (video : option str) :
  Forall (λ content, is_title content = false) before →
  ∃ video',
    scan_contents (before ++ rest) video None
    = scan_contents rest video' None.
Proof.
  intros Hbefore. revert video.
  induction Hbefore as [|content before Hcontent _ IH]; intros video.
  { by exists video. }
  rewrite <- app_comm_cons, scan_contents_cons, Hcontent. cbn [andb].
  destruct (has_video content && negb (otruthy video));
    cbn [fst snd otruthy]; rewrite andb_false_r; apply IH.
Qed.

Lemma scan_title_kept (contents : list str) (video : option str)
    (title : str) :
  title ≠ [] → (scan_contents contents video (Some title)).2 = Some title.
Proof.
  intros Htitle%truthy_nonempty. revert video.
  induction contents as [|content contents IH]; intros video; [done|].
  rewrite scan_contents_cons. cbn [otruthy]. rewrite Htitle, andb_false_r.
  destruct (has_video content && negb (otruthy video)); cbn [fst snd];
    match goal with
    | |- context [if ?b then _ else _] => destruct b; [done | apply IH]
    end.
Qed.

Lemma scan_before_video (before rest : list str) (title : option str) :
  Forall (λ content, has_video content = false) before →
  ∃ title',
    scan_contents (before ++ rest) None title
    = scan_contents rest None title'.
Proof.
  intros Hbefore. revert title.
  induction Hbefore as [|content before Hcontent _ IH]; intros title.
  { by exists title. }
  rewrite <- app_comm_cons, scan_contents_cons, Hcontent. cbn [andb].
  destruct (is_title content && negb (otruthy title));
    cbn [fst snd otruthy andb]; apply IH.
Qed.

Lemma scan_video_kept (contents : list str) (video : str)
    (title : option str) :
  video ≠ [] → (scan_contents contents (Some video) title).1 = Some video.
Proof.
  intros Hvideo%truthy_nonempty. revert title.
  induction contents as [|content contents IH]; intros title; [done|].
  rewrite scan_contents_cons. cbn [otruthy]. rewrite Hvideo, andb_false_r.
  destruct (is_title content && negb (otruthy title)); cbn [fst snd];
    match goal with
    | |- context [if ?b then _ else _] => destruct b; [done | apply IH]
    end.
Qed.

End Scan.

Example title_after_empty_title :
  (get_video_url (py "title=&title=b") false offline).1
  = inl (None, Some (py "b")).
Proof. vm_compute. reflexivity. Qed.

Example url_after_empty_url :
  (get_video_url (py "x|videoplayback|&y|videoplayback?id=2") false offline).1
  = inl (Some (py "videoplayback?id=2"), None).
Proof. vm_compute. reflexivity. Qed.

(** C1, as the code has it.  When the info text has a token that
    starts with [title=], the title is the percent-decoding of what
    follows the last [=] of the first such token, provided that
    decoding is not empty, and no later token changes it; what follows
    the last [=] is the entire remainder after [title=] exactly when
    the remainder holds no [=].  On the example text of the spec the
    title is [My Video]; for the token [title=a%3Db=c%20d], followed by
    a second title token, it is [c d]. *)
Theorem title_from_first_title_token (verbose : bool) (w : World) :
  (∀ (page_content : str) (before after : list str) (content : str),
     split page_content (ord "&") = before ++ content :: after →
     Forall (λ c, startswith c (py "title=") = false) before →
     startswith content (py "title=") = true →
     unquote (last_field (split content (ord "="))) ≠ [] →
     (∃ video,
        (get_video_url page_content verbose w).1
        = inl (video, Some (unquote (last_field (split content (ord "="))))))
     ∧ (last_field (split content (ord "="))
        = drop (length (py "title=")) content
        ↔ ord "=" ∉ drop (length (py "title=")) content))
  ∧ (get_video_url info_example verbose w).1
    = inl (Some (py "https://host/videoplayback?id=2"), Some (py "My Video"))
  ∧ (get_video_url (py "title=a%3Db=c%20d&title=e") verbose w).1
    = inl (None, Some (py "c d")).
Proof.
  split; [|split; rewrite get_video_url_result; vm_compute; reflexivity].
  intros page_content before after content Hsplit Hbefore Htitle Hdecoded.
  split.
  - rewrite get_video_url_result, Hsplit.
    destruct (scan_before_title before (content :: after) None Hbefore)
      as [video ->].
    rewrite scan_contents_cons, Htitle. cbn [otruthy negb andb fst snd].
    apply truthy_nonempty in Hdecoded as Htruthy. rewrite Htruthy, andb_true_r.
    destruct (otruthy video); [by eexists|].
    pose proof (scan_title_kept after video _ Hdecoded) as Hkept.
    destruct (scan_contents after video _) as [video' title'].
    simpl in Hkept. subst title'. by eexists.
  - apply startswith_app in Htitle as [rest ->].
    rewrite drop_app_length.
    change (py "title=" ++ rest) with (py "title" ++ ord "=" :: rest).
    apply last_field_is_remainder.
Qed.

Lemma title_from_first_title_token_witness :
  (∃ video,
     (get_video_url info_example true offline).1
     = inl (video, Some (py "My Video")))
  ∧ (last_field (split (py "title=My%20Video") (ord "="))
     = drop (length (py "title=")) (py "title=My%20Video")
     ↔ ord "=" ∉ drop (length (py "title=")) (py "title=My%20Video")).
Proof.
  refine (proj1 (title_from_first_title_token true offline) info_example
            [py "a=1"]
            [py "foo=bar"; py "xyz|https://host/videoplayback?id=2"]
            (py "title=My%20Video") _ _ _ _).
  - vm_compute. reflexivity.
  - repeat constructor.
  - vm_compute. reflexivity.
  - vm_compute. discriminate.
Defined.

(** C1, as stated, fails: for the token [title=a%20b=c%20d] the title
    is [c d], not the percent-decoding [a b=c d] of the entire
    remainder. *)
Lemma title_is_last_field_only :
  split (py "title=a%20b=c%20d") (ord "&") = [py "title=a%20b=c%20d"]
  ∧ startswith (py "title=a%20b=c%20d") (py "title=") = true
  ∧ (get_video_url (py "title=a%20b=c%20d") false offline).1
    = inl (None, Some (py "c d"))
  ∧ unquote (drop (length (py "title=")) (py "title=a%20b=c%20d"))
    = py "a b=c d"
  ∧ py "c d" ≠ py "a b=c d".
Proof. repeat split; vm_compute; (reflexivity || discriminate). Qed.

(** C4, as the code has it.  When the first token of the info text
    that contains [videoplayback] does not start with [title=], the
    stream URL is what follows the last [|] of the percent-decoding of
    that whole token, provided that part is not empty; on the example
    text the title is [My Video] and the URL is
    [https://host/videoplayback?id=2]. *)
Theorem url_from_first_videoplayback_token (verbose : bool) (w : World) :
  (∀ (page_content : str) (before after : list str) (content : str),
     split page_content (ord "&") = before ++ content :: after →
     Forall (λ c, contains c (py "videoplayback") = false) before →
     contains content (py "videoplayback") = true →
     startswith content (py "title=") = false →
     last_field (split (unquote content) (ord "|")) ≠ [] →
     ∃ title,
       (get_video_url page_content verbose w).1
       = inl (Some (last_field (split (unquote content) (ord "|"))), title))
  ∧ (get_video_url info_example verbose w).1
    = inl (Some (py "https://host/videoplayback?id=2"), Some (py "My Video")).
Proof.
  split.
  - intros page_content before after content Hsplit Hbefore Hvideo Htitle Hurl.
    rewrite get_video_url_result, Hsplit.
    destruct (scan_before_video before (content :: after) None Hbefore)
      as [title ->].
    rewrite scan_contents_cons, Htitle, Hvideo.
    cbn [otruthy negb andb fst snd].
    apply truthy_nonempty in Hurl as Htruthy. rewrite Htruthy. cbn [andb].
    destruct (otruthy title); [by eexists|].
    pose proof (scan_video_kept after _ title Hurl) as Hkept.
    destruct (scan_contents after _ title) as [video' title'].
    simpl in Hkept. subst video'. by eexists.
  - rewrite get_video_url_result. vm_compute. reflexivity.
Qed.

Lemma url_from_first_videoplayback_token_witness :
  ∃ title,
    (get_video_url info_example false offline).1
    = inl (Some (last_field
                   (split (unquote (py "xyz|https://host/videoplayback?id=2"))
                          (ord "|"))), title).
Proof.
  apply (proj1 (url_from_first_videoplayback_token false offline)
           info_example
           [py "a=1"; py "title=My%20Video"; py "foo=bar"] []
           (py "xyz|https://host/videoplayback?id=2")).
  - vm_compute. reflexivity.
  - repeat constructor.
  - vm_compute. reflexivity.
  - vm_compute. reflexivity.
  - vm_compute. discriminate.
Defined.

(** C4, as stated, fails: when the first token that contains
    [videoplayback] is the title token, the URL comes from a later
    token, not from that first one. *)
Lemma url_skips_title_token :
  split (py "title=videoplayback&u|https://host/videoplayback?id=2") (ord "&")
  = [py "title=videoplayback"; py "u|https://host/videoplayback?id=2"]
  ∧ contains (py "title=videoplayback") (py "videoplayback") = true
  ∧ (get_video_url
       (py "title=videoplayback&u|https://host/videoplayback?id=2")
       false offline).1
    = inl (Some (py "https://host/videoplayback?id=2"),
           Some (py "videoplayback"))
  ∧ last_field (split (unquote (py "title=videoplayback")) (ord "|"))
    = py "title=videoplayback"
  ∧ py "https://host/videoplayback?id=2" ≠ py "title=videoplayback".
Proof. repeat split; vm_compute; (reflexivity || discriminate). Qed.

(** ** File names *)

Lemma foldl_replace (name chars : str) (new : N) :
  foldl (λ name ch, replace name ch new) name chars
  = (λ c, foldl (λ c ch, if c =? ch then new else c) c chars) <$> name.
Proof.
  revert name. induction chars as [|ch chars IH]; intros name; simpl.
  - by rewrite list_fmap_id.
  - rewrite IH. unfold replace. by rewrite <- list_fmap_compose.
Qed.

Lemma replace_invalid (c : N) :
  foldl (λ c ch, if c =? ch then ord "_" else c) c invalid
  = if is_invalid c then ord "_" else c.
Proof.
  unfold is_invalid.
  change invalid with [60; 62; 58; 34; 47; 92; 92; 124; 63; 42].
  cbn [foldl existsb].
  repeat match goal with
         | H : (c =? ?k) = false |- context [c =? ?k] => rewrite H; cbv iota
         | |- context [c =? ?k] =>
             destruct (c =? k) eqn:?;
             [ match goal with
               | H : (c =? k) = true |- _ => apply N.eqb_eq in H as ->
               end; vm_compute; reflexivity | cbv iota ]
         end.
  reflexivity.
Qed.

(** [sanitize_filename] does what the spec words as [cleaned]. *)
Lemma sanitize_filename_cleaned (title : str) :
  sanitize_filename (Some title) = Some (cleaned title).
Proof.
  unfold sanitize_filename, cleaned. destruct title as [|c title]; [done|].
  cbn [truthy negb]. rewrite foldl_replace. do 2 f_equal.
  apply list_fmap_ext. intros _ c' _. apply replace_invalid.
Qed.

Lemma lstrip_decompose (s : str) :
  ∃ ws, s = ws ++ lstrip s ∧ Forall (λ c, isspace c = true) ws.
Proof.
  exists (span isspace s).1. split; [apply span_app | apply span_run].
Qed.

Lemma lstrip_head (s : str) (c : N) :
  head (lstrip s) = Some c → isspace c = false.
Proof.
  unfold lstrip. pose proof (span_rest isspace s) as Hrest.
  destruct (span isspace s).2; [done|]. by intros [= <-].
Qed.

Lemma lstrip_fixed (s : str) :
  (∀ c, head s = Some c → isspace c = false) → lstrip s = s.
Proof.
  unfold lstrip. destruct s as [|c s]; [done|]. intros Hhead. simpl.
  by rewrite (Hhead c).
Qed.

Lemma strip_decompose (s : str) :
  ∃ ws ws',
    s = ws ++ strip s ++ ws'
    ∧ Forall (λ c, isspace c = true) ws
    ∧ Forall (λ c, isspace c = true) ws'.
Proof.
  destruct (lstrip_decompose s) as (ws & Hs & Hws).
  destruct (lstrip_decompose (rev (lstrip s))) as (ws' & Hrev & Hws').
  exists ws, (rev ws'). split; [|split; [done|]].
  - rewrite Hs at 1. f_equal. unfold strip, rstrip.
    rewrite <- rev_app_distr, <- Hrev. by rewrite rev_involutive.
  - apply Forall_forall. intros c Hc. rewrite Forall_forall in Hws'.
    apply Hws'. by rewrite list_elem_of_In, in_rev, <- list_elem_of_In.
Qed.

Lemma strip_last (s : str) (c : N) :
  last (strip s) = Some c → isspace c = false.
Proof.
  unfold strip, rstrip. intros (l & Hl)%last_Some.
  apply (lstrip_head (rev (lstrip s))).
  rewrite <- (rev_involutive (lstrip (rev (lstrip s)))), Hl.
  by rewrite rev_app_distr.
Qed.

Lemma strip_head (s : str) (c : N) :
  head (strip s) = Some c → isspace c = false.
Proof.
  intros (l & Hl)%head_Some. apply (lstrip_head s).
  destruct (lstrip_decompose (rev (lstrip s))) as (ws' & Hrev & _).
  assert (lstrip s = strip s ++ rev ws') as ->; [|by rewrite Hl].
  unfold strip, rstrip.
  rewrite <- rev_app_distr, <- Hrev. by rewrite rev_involutive.
Qed.

Lemma strip_fixed (s : str) :
  (∀ c, head s = Some c → isspace c = false) →
  (∀ c, last s = Some c → isspace c = false) →
  strip s = s.
Proof.
  intros Hhead Hlast. unfold strip, rstrip.
  rewrite (lstrip_fixed s Hhead), lstrip_fixed; [apply rev_involutive|].
  intros c (l & Hl)%head_Some. apply Hlast, last_Some. exists (rev l).
  by rewrite <- (rev_involutive s), Hl.
Qed.

(** [str.strip] gives what [stripped_of] describes, and nothing else
    fits that description. *)
Lemma stripped_of_strip (s name : str) : stripped_of s name ↔ strip s = name.
Proof.
  split.
  - intros ((before & after & -> & Hbefore & Hafter) & Hhead & Hlast).
    unfold strip, rstrip, lstrip.
    destruct name as [|c name].
    + rewrite app_nil_l, <- (app_nil_r (before ++ after)).
      rewrite (span_unique isspace (before ++ after) []);
        [done | by apply Forall_app | done].
    + rewrite (span_unique isspace before); [|done|].
      2:{ cbn [app]. by apply Hhead. }
      cbn [snd]. rewrite rev_app_distr.
      destruct (rev (c :: name)) as [|c' name'] eqn:Hrev.
      { apply (f_equal length) in Hrev. by rewrite length_rev in Hrev. }
      rewrite (span_unique isspace (rev after)).
      * cbn [snd]. by rewrite <- Hrev, rev_involutive.
      * apply Forall_forall. intros a Ha. rewrite Forall_forall in Hafter.
        apply Hafter. by rewrite list_elem_of_In, in_rev, <- list_elem_of_In.
      * apply Hlast, last_Some. exists (rev name').
        by rewrite <- (rev_involutive (c :: name)), Hrev.
  - intros <-. split; [apply strip_decompose|].
    split; intros c; [apply strip_head | apply strip_last].
Qed.

(** [sanitize_filename] gives the title with its invalid characters
    replaced and its surrounding whitespace taken off. *)
Lemma sanitize_filename_stripped (title name : str) :
  stripped_of (underscored title) name
  ↔ sanitize_filename (Some title) = Some name.
Proof.
  rewrite stripped_of_strip, sanitize_filename_cleaned.
  unfold cleaned, underscored. split; [by intros -> | by intros [= ->]].
Qed.

Lemma output_filename_cases (output_file title : option str)
    (video_id : str) :
  (∀ name, output_file = Some name → name ≠ [] →
           output_filename output_file title video_id = name)
  ∧ (otruthy output_file = false →
     ∀ t name, title = Some t → stripped_of (underscored t) name →
               name ≠ [] →
               output_filename output_file title video_id = name)
  ∧ (otruthy output_file = false →
     title = None ∨ (∃ t, title = Some t ∧ stripped_of (underscored t) []) →
     output_filename output_file title video_id = video_id).
Proof.
  unfold output_filename. repeat split.
  - intros name -> Hname%truthy_nonempty. simpl. by rewrite Hname.
  - intros -> t name -> Hclean%sanitize_filename_stripped
      Hname%truthy_nonempty.
    rewrite Hclean. simpl. by rewrite Hname.
  - intros -> [->|(t & -> & Hclean%sanitize_filename_stripped)]; [done|].
    by rewrite Hclean.
Qed.
(** ** The downloader *)

Lemma bind_run {A B} (m : M A) (k : A → M B) (w : World) :
  (m ≫= k) w
  = match m w with
    | (inl a, w') => k a w'
    | (inr e, w') => (inr e, w')
    end.
Proof. done. Qed.

Lemma ret_run {A} (a : A) (w : World) : (mret a : M A) w = (inl a, w).
Proof. done. Qed.

Lemma emit_run (ev : Event) (w : World) :
  emit ev w
  = (inl (), {| fs := fs w; stdout := stdout w ++ [ev]; sent := sent w;
                opens := opens w; net := net w;
                open_error := open_error w |}).
Proof. done. Qed.

Lemma print_run (line : str) (w : World) : print line w = emit (Printed line) w.
Proof. done. Qed.

Lemma when_run (cond : bool) (body : M unit) (w : World) :
  when cond body w = if cond then body w else (inl (), w).
Proof. by destruct cond. Qed.

(** What [open] raises depends on the files and on [open_error]
    alone. *)
Lemma open_failure_frame (w w' : World) (filename : str) (mode : file_mode) :
  fs w' = fs w → open_error w' = open_error w →
  open_failure w' filename mode = open_failure w filename mode.
Proof. unfold open_failure. by intros -> ->. Qed.

Lemma open_run (filename : str) (mode : file_mode) (w : World) :
  open filename mode w
  = (match open_failure w filename mode with
     | Some e => inr e
     | None => inl ()
     end,
     {| fs := match open_failure w filename mode with
              | Some _ => fs w
              | None => <[filename := opened (fs w !! filename) mode]> (fs w)
              end;
        stdout := stdout w; sent := sent w;
        opens := opens w ++ [(filename, mode)]; net := net w;
        open_error := open_error w |}).
Proof. unfold open. by destruct (open_failure w filename mode). Qed.

Lemma raise_run {A} (e : exn) (w : World) : raise (A:=A) e w = (inr e, w).
Proof. done. Qed.

Lemma requests_get_run (url : str) (stream : bool)
    (cookies headers : gmap str str) (w : World) :
  requests_get url stream cookies headers w
  = let request := {| req_url := url; req_cookies := cookies;
                      req_headers := headers; req_stream := stream |} in
    let w' := {| fs := fs w; stdout := stdout w;
                 sent := sent w ++ [request]; opens := opens w;
                 net := net w; open_error := open_error w |} in
    match net w (sent w) request with
    | Answered response => (inl response, w')
    | Failed message => (inr (RequestException message), w')
    end.
Proof. done. Qed.

(** One step of symbolic execution: the head computation is run on the
    current world and the world is put back in record form. *)
Ltac exec :=
  repeat (first [ rewrite bind_run | rewrite ret_run | rewrite print_run
                | rewrite emit_run | rewrite when_run
                | rewrite raise_run | rewrite requests_get_run ];
          cbv beta iota zeta; cbn [fs stdout sent opens net open_error]).

Ltac exec_with H :=
  exec; rewrite ?H; cbn [default from_option length]; unfold id;
  try change (Z.of_nat 0) with 0%Z; try change (0 <? 0)%Z with false; exec.

Lemma exists_some (entry : Entry) :
  bool_decide (is_Some (Some entry)) = true.
Proof. by apply bool_decide_eq_true_2. Qed.

Lemma exists_none : bool_decide (is_Some (@None Entry)) = false.
Proof. apply bool_decide_eq_false_2. by intros [? ?]. Qed.

Lemma for_each_cons {A} (x : A) (xs : list A) (body : A → M unit)
    (w : World) :
  for_each (x :: xs) body w
  = match body x w with
    | (inl _, w') => for_each xs body w'
    | (inr e, w') => (inr e, w')
    end.
Proof. done. Qed.

Lemma written_nil (entry : Entry) : written [] entry = entry.
Proof. destruct entry; [|done..]. simpl. by rewrite app_nil_r. Qed.

Lemma written_app (a b : bytes) (entry : Entry) :
  written b (written a entry) = written (a ++ b) entry.
Proof. destruct entry; [|done..]. simpl. by rewrite <- app_assoc. Qed.

(** What the downloader opens and what it has received make up what
    the path names in the end. *)
Lemma written_opened (existing : option Entry) (data : bytes) :
  written data (opened existing (download_mode existing))
  = received existing data.
Proof. by destruct existing as [[]|]. Qed.

Lemma write_chunk (filename : str) (chunk : bytes) (w : World) :
  (write filename chunk ;; emit (PbarUpdate (Z.of_nat (length chunk)))) w
  = (inl (),
     {| fs := alter (written chunk) filename (fs w);
        stdout := stdout w ++ [PbarUpdate (Z.of_nat (length chunk))];
        sent := sent w; opens := opens w; net := net w;
        open_error := open_error w |}).
Proof. done. Qed.

(** The loop over the chunks: it writes them to the opened path,
    reports them to the progress bar, and touches nothing else. *)
Lemma write_chunks (filename : str) (chunks : list bytes) (w : World) :
    for_each chunks
      (λ chunk,
         match chunk with
         | [] => mret ()
         | _ :: _ =>
             write filename chunk ;;
             emit (PbarUpdate (Z.of_nat (length chunk)))
         end) w
    = (inl (),
       {| fs := alter (written (concat chunks)) filename (fs w);
          stdout := stdout w ++ progress chunks; sent := sent w;
          opens := opens w; net := net w; open_error := open_error w |}).
Proof.
  revert w. induction chunks as [|chunk chunks IH]; intros w.
  { simpl. rewrite app_nil_r, alter_id; [by destruct w|].
    intros entry _. apply written_nil. }
  rewrite for_each_cons. destruct chunk as [|b chunk].
  { rewrite ret_run, IH. unfold progress.
    by rewrite filter_cons_False by (by intros []). }
  cbv beta iota. rewrite write_chunk, IH.
  cbn [fs stdout sent opens net open_error].
  unfold progress. rewrite filter_cons_True by done.
  rewrite alter_alter_eq, <- app_assoc. do 2 f_equal.
  apply alter_ext. intros entry _. cbn [concat]. apply written_app.
Qed.

Section DownloaderFacts.

Variable int_of_str : str → option Z.

(** The whole of [download_file], case by case: what it returns or
    raises, and the world it leaves. *)
Lemma download_file_run (url : str) (cookies : gmap str str)
    (filename : str) (chunk_size : Z) (verbose : bool) (w : World) :
  let existing := fs w !! filename in
  let request := download_request url cookies existing in
  let mode := download_mode existing in
  let size := default 0%Z (entry_size <$> existing) in
  let after out files calls :=
    {| fs := files; stdout := stdout w ++ announced url existing verbose ++ out;
       sent := sent w ++ [request]; opens := opens w ++ calls; net := net w;
       open_error := open_error w |} in
  download_file int_of_str url cookies filename chunk_size verbose w
  = match net w (sent w) request with
    | Failed message => (inr (RequestException message), after [] (fs w) [])
    | Answered response =>
        if ((status_code response =? 200)
            || (status_code response =? 206))%Z then
          match match content_length response with
                | None => Some 0%Z
                | Some header => int_of_str header
                end with
          | None => (inr ValueError, after [] (fs w) [])
          | Some declared =>
              match open_failure w filename mode with
              | Some e => (inr e, after [] (fs w) [(filename, mode)])
              | None =>
                  let chunks := (iter_content response chunk_size).1 in
                  let files :=
                    <[filename := received existing (concat chunks)]> (fs w) in
                  let bar :=
                    PbarOpen (declared + size) size filename
                    :: progress chunks ++ [PbarClose] in
                  match (iter_content response chunk_size).2 with
                  | Some message =>
                      (inr (RequestException message),
                       after bar files [(filename, mode)])
                  | None =>
                      (inl (),
                       after (bar ++ [Printed ([10] ++ filename
                                               ++ py " downloaded successfully.")])
                             files [(filename, mode)])
                  end
              end
          end
        else
          (inl (),
           after [Printed (py "Error downloading " ++ filename
                           ++ py ", status code: "
                           ++ of_Z (status_code response))]
                 (fs w) [])
    end.
Proof.
  cbv zeta.
  unfold download_file, download_request, download_mode, announced,
    path_exists, getsize. exec.
  destruct (fs w !! filename) as [entry|] eqn:Hfile;
    rewrite ?exists_some, ?exists_none; exec_with Hfile;
    destruct verbose; exec_with Hfile;
    try match goal with
        | |- context [(0 <? ?n)%Z] => destruct (0 <? n)%Z
        end;
    exec_with Hfile.
  all: destruct (net w (sent w) _) as [response|message]; exec;
    rewrite ?app_nil_r, <- ?app_assoc; [|reflexivity].
  all: destruct ((status_code response =? 200)
                 || (status_code response =? 206))%Z; exec;
    rewrite ?app_nil_r, <- ?app_assoc; [|reflexivity].
  all: destruct (content_length response) as [header|];
    [destruct (int_of_str header) as [declared|]|]; exec;
    rewrite ?app_nil_r, <- ?app_assoc; try reflexivity.
  all: rewrite open_run;
    match goal with
    | |- context [open_failure (Build_World ?a ?b ?c ?d ?e ?g) ?f ?m] =>
        rewrite (open_failure_frame w (Build_World a b c d e g) f m
                   eq_refl eq_refl)
    end;
    cbn [fs stdout sent opens net open_error]; rewrite ?Hfile;
    (destruct (open_failure _ _ _) as [e|]; [reflexivity|]).
  all: exec; destruct (iter_content response chunk_size) as [chunks failure];
    cbv beta iota zeta; exec; rewrite write_chunks; exec; cbn [fst snd];
    rewrite alter_insert_eq;
    destruct failure; exec; rewrite ?app_nil_r, <- ?app_assoc;
    cbn [app default fmap option_fmap option_map];
    rewrite <- ?app_assoc; cbn [app];
    try (destruct entry); try reflexivity.
Qed.

Lemma status_accepted (response : Response) :
  status_code response = 200%Z ∨ status_code response = 206%Z ↔
  ((status_code response =? 200) || (status_code response =? 206))%Z = true.
Proof. rewrite orb_true_iff, !Z.eqb_eq. done. Qed.

Lemma status_refused (response : Response) :
  status_code response ≠ 200%Z → status_code response ≠ 206%Z →
  ((status_code response =? 200) || (status_code response =? 206))%Z = false.
Proof. intros H200%Z.eqb_neq H206%Z.eqb_neq. by rewrite H200, H206. Qed.

(** Puts the outcome of [download_file_run] in place of the call. *)
Ltac download_run :=
  match goal with
  | |- context [download_file ?i ?u ?c ?f ?s ?v ?w] =>
      let H := fresh in
      pose proof (download_file_run u c f s v w) as H;
      cbv zeta in H; rewrite H; clear H
  end.

Lemma download_file_refused (url : str) (cookies : gmap str str)
    (filename : str) (chunk_size : Z) (verbose : bool) (w : World)
    (response : Response) :
  net w (sent w) (download_request url cookies (fs w !! filename))
  = Answered response →
  status_code response ≠ 200%Z → status_code response ≠ 206%Z →
  ∃ w',
    download_file int_of_str url cookies filename chunk_size verbose w
    = (inl (), w')
    ∧ sent w' = sent w ++ [download_request url cookies (fs w !! filename)]
    ∧ opens w' = opens w ∧ fs w' = fs w
    ∧ stdout w'
      = stdout w ++ announced url (fs w !! filename) verbose
        ++ [Printed (py "Error downloading " ++ filename
                     ++ py ", status code: " ++ of_Z (status_code response))].
Proof.
  intros Hnet H200 H206. download_run.
  rewrite Hnet, status_refused by done.
  eexists. split; [reflexivity|]. cbn [fs stdout sent opens].
  by rewrite app_nil_r.
Qed.

Lemma range_header_lookup (url : str) (cookies : gmap str str)
    (existing : option Entry) :
  req_headers (download_request url cookies existing) !! py "Range"
  = (λ entry, py "bytes=" ++ of_Z (entry_size entry) ++ py "-") <$> existing.
Proof. destruct existing; [apply lookup_singleton_eq | apply lookup_empty]. Qed.

(** The download when the answer is accepted, its length readable and
    the path opened: what was received is written. *)
Lemma download_file_received (url : str) (cookies : gmap str str)
    (filename : str) (chunk_size : Z) (verbose : bool) (w : World)
    (response : Response) (declared : Z) :
  net w (sent w) (download_request url cookies (fs w !! filename))
  = Answered response →
  status_code response = 200%Z ∨ status_code response = 206%Z →
  match content_length response with
  | None => declared = 0%Z
  | Some header => int_of_str header = Some declared
  end →
  open_failure w filename (download_mode (fs w !! filename)) = None →
  ∃ w',
    download_file int_of_str url cookies filename chunk_size verbose w
    = (match (iter_content response chunk_size).2 with
       | Some message => inr (RequestException message)
       | None => inl ()
       end, w')
    ∧ sent w' = sent w ++ [download_request url cookies (fs w !! filename)]
    ∧ opens w' = opens w ++ [(filename, download_mode (fs w !! filename))]
    ∧ fs w'
      = <[filename := received (fs w !! filename)
                        (concat (iter_content response chunk_size).1)]> (fs w)
    ∧ last (stdout w')
      = Some (match (iter_content response chunk_size).2 with
              | Some _ => PbarClose
              | None =>
                  Printed ([10] ++ filename ++ py " downloaded successfully.")
              end).
Proof.
  intros Hnet Hstatus%status_accepted Hdeclared Hopen. download_run.
  rewrite Hnet, Hstatus, Hopen.
  assert (match content_length response with
          | None => Some 0%Z
          | Some header => int_of_str header
          end = Some declared) as ->.
  { destruct (content_length response); [done | by subst]. }
  destruct (iter_content response chunk_size).2;
    (eexists; split; [reflexivity|]); cbn [fs stdout sent opens];
    (do 3 (split; [reflexivity|]));
    rewrite ?app_comm_cons, ?app_assoc; apply last_snoc.
Qed.

(** The download when the answer is accepted and its length readable
    but [open] raises: the error goes up, no file is changed. *)
Lemma download_file_open_failed (url : str) (cookies : gmap str str)
    (filename : str) (chunk_size : Z) (verbose : bool) (w : World)
    (response : Response) (declared : Z) (e : exn) :
  net w (sent w) (download_request url cookies (fs w !! filename))
  = Answered response →
  status_code response = 200%Z ∨ status_code response = 206%Z →
  match content_length response with
  | None => declared = 0%Z
  | Some header => int_of_str header = Some declared
  end →
  open_failure w filename (download_mode (fs w !! filename)) = Some e →
  ∃ w',
    download_file int_of_str url cookies filename chunk_size verbose w
    = (inr e, w')
    ∧ sent w' = sent w ++ [download_request url cookies (fs w !! filename)]
    ∧ opens w' = opens w ++ [(filename, download_mode (fs w !! filename))]
    ∧ fs w' = fs w
    ∧ stdout w' = stdout w ++ announced url (fs w !! filename) verbose.
Proof.
  intros Hnet Hstatus%status_accepted Hdeclared Hopen. download_run.
  rewrite Hnet, Hstatus, Hopen.
  assert (match content_length response with
          | None => Some 0%Z
          | Some header => int_of_str header
          end = Some declared) as ->.
  { destruct (content_length response); [done | by subst]. }
  eexists. split; [reflexivity|]. cbn [fs stdout sent opens].
  by rewrite app_nil_r.
Qed.

Lemma download_file_unreachable (url : str) (cookies : gmap str str)
    (filename : str) (chunk_size : Z) (verbose : bool) (w : World)
    (message : str) :
  net w (sent w) (download_request url cookies (fs w !! filename))
  = Failed message →
  ∃ w',
    download_file int_of_str url cookies filename chunk_size verbose w
    = (inr (RequestException message), w')
    ∧ sent w' = sent w ++ [download_request url cookies (fs w !! filename)]
    ∧ opens w' = opens w ∧ fs w' = fs w.
Proof.
  intros Hnet. download_run. rewrite Hnet.
  eexists. split; [reflexivity|]. cbn [fs stdout sent opens].
  by rewrite app_nil_r.
Qed.

Lemma download_file_value_error (url : str) (cookies : gmap str str)
    (filename : str) (chunk_size : Z) (verbose : bool) (w : World)
    (response : Response) (header : str) :
  net w (sent w) (download_request url cookies (fs w !! filename))
  = Answered response →
  status_code response = 200%Z ∨ status_code response = 206%Z →
  content_length response = Some header → int_of_str header = None →
  ∃ w',
    download_file int_of_str url cookies filename chunk_size verbose w
    = (inr ValueError, w')
    ∧ sent w' = sent w ++ [download_request url cookies (fs w !! filename)]
    ∧ opens w' = opens w ∧ fs w' = fs w.
Proof.
  intros Hnet Hstatus%status_accepted Hheader Hint. download_run.
  rewrite Hnet, Hstatus, Hheader, Hint.
  eexists. split; [reflexivity|]. cbn [fs stdout sent opens].
  by rewrite app_nil_r.
Qed.

(** Whatever happens, one request is sent, at most one call to [open]
    is made, in the mode the local path calls for, and at most the
    local path is changed. *)
Lemma download_file_frame (url : str) (cookies : gmap str str)
    (filename : str) (chunk_size : Z) (verbose : bool) (w : World) :
  let existing := fs w !! filename in
  let w' :=
    (download_file int_of_str url cookies filename chunk_size verbose w).2 in
  sent w' = sent w ++ [download_request url cookies existing]
  ∧ (opens w' = opens w
     ∨ opens w' = opens w ++ [(filename, download_mode existing)])
  ∧ (fs w' = fs w ∨ ∃ entry, fs w' = <[filename := entry]> (fs w))
  ∧ net w' = net w ∧ open_error w' = open_error w.
Proof.
  cbv zeta. download_run.
  destruct (net w (sent w) _) as [response|message];
    [destruct ((status_code response =? 200)
               || (status_code response =? 206))%Z;
     [destruct (match content_length response with
                | None => Some 0%Z
                | Some header => int_of_str header
                end);
      [destruct (open_failure w filename _);
       [|destruct (iter_content response chunk_size).2]|]|]|];
    cbn [snd fs stdout sent opens net open_error];
    rewrite ?app_nil_r; eauto 10.
Qed.

Lemma download_file_sent_opens (url : str) (cookies : gmap str str)
    (filename : str) (chunk_size : Z) (verbose : bool) (w : World) :
  let existing := fs w !! filename in
  let w' :=
    (download_file int_of_str url cookies filename chunk_size verbose w).2 in
  sent w' = sent w ++ [download_request url cookies existing]
  ∧ (opens w' = opens w
     ∨ opens w' = opens w ++ [(filename, download_mode existing)]).
Proof.
  cbv zeta.
  destruct (download_file_frame url cookies filename chunk_size verbose w)
    as (? & ? & _).
  done.
Qed.

End DownloaderFacts.

(** ** The claims on the downloader *)

Lemma get_video_url_run (page_content : str) (verbose : bool) (w : World) :
  ∃ w',
    get_video_url page_content verbose w
    = (inl (scan_contents (split page_content (ord "&")) None None), w')
    ∧ fs w' = fs w ∧ sent w' = sent w ∧ opens w' = opens w ∧ net w' = net w.
Proof.
  unfold get_video_url.
  destruct (scan_contents _ None None) as [video title].
  destruct verbose; exec; by eexists.
Qed.

Lemma download_from_video_id_run (int_of_str : str → option Z)
    (video_id : str) (output_file : option str) (chunk_size : Z)
    (verbose : bool) (w : World) (response : Response)
    (video title : option str) :
  net w (sent w) (info_request video_id) = Answered response →
  ¬ (400 ≤ status_code response < 600)%Z →
  scan_contents (split (text response) (ord "&")) None None = (video, title) →
  otruthy video = true →
  ∃ w1,
    download_from_video_id int_of_str video_id output_file chunk_size verbose w
    = download_file int_of_str (default [] video) (cookies response)
        (output_filename output_file title video_id) chunk_size verbose w1
    ∧ fs w1 = fs w ∧ opens w1 = opens w.
Proof.
  intros Hnet Hok Hscan Hvideo.
  unfold download_from_video_id, info_request in *.
  destruct verbose; exec; rewrite Hnet; exec;
    rewrite raise_for_status_ok by done; exec;
    match goal with
    | |- context [get_video_url ?text ?v ?w0] =>
        destruct (get_video_url_run text v w0)
          as (w1 & -> & Hfs & _ & Hopens & _)
    end;
    rewrite Hscan; exec; rewrite Hvideo; by exists w1.
Qed.
(** C8. When the answer to the download request has a status other
    than 200 and 206, [download_file] returns normally, reports
    [Error downloading <filename>, status code: <status>] as the last
    line, opens no file and leaves every file as it was. *)
Theorem download_file_bad_status (int_of_str : str → option Z) (url : str)
    (cookies : gmap str str) (filename : str) (chunk_size : Z)
    (verbose : bool) (w : World) (response : Response) :
  net w (sent w) (download_request url cookies (fs w !! filename))
  = Answered response →
  status_code response ≠ 200%Z → status_code response ≠ 206%Z →
  ∃ w' info,
    download_file int_of_str url cookies filename chunk_size verbose w
    = (inl (), w')
    ∧ fs w' = fs w
    ∧ opens w' = opens w
    ∧ stdout w'
      = stdout w ++ info
        ++ [Printed (py "Error downloading " ++ filename
                   ++ py ", status code: " ++ of_Z (status_code response))].
Proof.
  intros Hnet H200 H206.
  destruct (download_file_refused int_of_str url cookies filename chunk_size
              verbose w response Hnet H200 H206)
    as (w' & Hrun & _ & Hopens & Hfs & Hout).
  by exists w', (announced url (fs w !! filename) verbose).
Qed.

Lemma download_file_bad_status_witness :
  ∃ w' info,
    download_file int_of_digits stream_url ∅ video_file 1024 true
      (serving {[ video_file := Regular [x00; x01] ]} (refusal 403))
    = (inl (), w')
    ∧ fs w' = {[ video_file := Regular [x00; x01] ]}
    ∧ opens w' = []
    ∧ stdout w'
      = [] ++ info
        ++ [Printed (py "Error downloading " ++ video_file
                   ++ py ", status code: " ++ of_Z 403)].
Proof.
  refine (download_file_bad_status int_of_digits stream_url ∅ video_file 1024
            true (serving {[ video_file := Regular [x00; x01] ]} (refusal 403))
            (refusal 403) _ _ _).
  - reflexivity.
  - discriminate.
  - discriminate.
Defined.

(** C2, as the code has it.  For every call to [download_file] the one
    request sent carries a [Range] header [bytes=<size>-] exactly when
    the local path exists, whatever its size and whatever it names, and
    carries no such header when the path is absent; if [open] is called
    at all it is called for append when the local path exists and for
    fresh write when it is absent; when the status is 200 or 206 and
    the declared length is readable [open] is called in that mode, and
    either it raises, the error goes up and no file is changed, or a
    regular file ends up holding what it held followed by the chunks
    received, and an absent path becomes a file holding those chunks.
    For a directory [open] raises. *)
Theorem download_file_range_when_exists (int_of_str : str → option Z)
    (url : str) (cookies : gmap str str) (filename : str) (chunk_size : Z)
    (verbose : bool) (w : World) :
  let existing := fs w !! filename in
  let request := download_request url cookies existing in
  let mode := download_mode existing in
  let outcome :=
    download_file int_of_str url cookies filename chunk_size verbose w in
  sent outcome.2 = sent w ++ [request]
  ∧ req_headers request !! py "Range"
    = (λ entry, py "bytes=" ++ of_Z (entry_size entry) ++ py "-") <$> existing
  ∧ (mode = ab ↔ is_Some existing)
  ∧ (mode = wb ↔ existing = None)
  ∧ (opens outcome.2 = opens w ∨ opens outcome.2 = opens w ++ [(filename, mode)])
  ∧ (∀ response declared,
       net w (sent w) request = Answered response →
       status_code response = 200%Z ∨ status_code response = 206%Z →
       match content_length response with
       | None => declared = 0%Z
       | Some header => int_of_str header = Some declared
       end →
       opens outcome.2 = opens w ++ [(filename, mode)]
       ∧ match open_failure w filename mode with
         | Some e => outcome.1 = inr e ∧ fs outcome.2 = fs w
         | None =>
             fs outcome.2
             = <[filename := received existing
                               (concat (iter_content response chunk_size).1)]>
                 (fs w)
         end)
  ∧ (∀ size, existing = Some (Directory size) →
             open_failure w filename mode = Some OSError).
Proof.
  cbv zeta.
  destruct (download_file_sent_opens int_of_str url cookies filename
              chunk_size verbose w) as [Hsent Hopens].
  split; [done|]. split; [apply range_header_lookup|].
  split; [destruct (fs w !! filename); simpl; split; (done || by intros [])|].
  split; [by destruct (fs w !! filename)|].
  split; [done|]. split.
  - intros response declared Hnet Hok Hdeclared.
    destruct (open_failure w filename (download_mode (fs w !! filename)))
      as [e|] eqn:Hopen.
    + destruct (download_file_open_failed int_of_str url cookies filename
                  chunk_size verbose w response declared e Hnet Hok
                  Hdeclared Hopen) as (w' & -> & _ & Hopens' & Hfs & _).
      done.
    + destruct (download_file_received int_of_str url cookies filename
                  chunk_size verbose w response declared Hnet Hok Hdeclared
                  Hopen) as (w' & -> & _ & Hopens' & Hfs & _).
      done.
  - intros size Hdir. unfold open_failure. by rewrite Hdir.
Qed.

Lemma download_file_range_when_exists_witness :
  let w := serving {[ video_file := Regular [x00; x01] ]}
                   (answer [] [[x02]; []; [x03; x04]]) in
  let w' := (download_file int_of_digits stream_url ∅ video_file 1024 false
               w).2 in
  opens w' = [(video_file, ab)]
  ∧ fs w' = {[ video_file := Regular [x00; x01; x02; x03; x04] ]}.
Proof.
  cbv zeta.
  pose proof (proj1 (proj2 (proj2 (proj2 (proj2 (proj2
                (download_file_range_when_exists int_of_digits stream_url ∅
                   video_file 1024 false
                   (serving {[ video_file := Regular [x00; x01] ]}
                            (answer [] [[x02]; []; [x03; x04]]))))))))
                (answer [] [[x02]; []; [x03; x04]]) 0%Z)
    as Hcase.
  cbv zeta in Hcase. unfold open_failure in Hcase.
  cbn [serving world fs open_error opens] in Hcase.
  rewrite lookup_singleton_eq in Hcase. cbn [download_mode] in Hcase.
  destruct Hcase as [Hopens Hfs]; [reflexivity | by left | reflexivity |].
  split; [exact Hopens|]. rewrite Hfs. apply insert_singleton_eq.
Defined.

(** C2, as stated, fails: for a local file that exists with size 0 the
    request still carries [Range: bytes=0-] and the file is opened for
    append, not for fresh write. *)
Lemma empty_file_ranged_and_appended :
  let w := serving {[ video_file := Regular [] ]} (answer [] [[x02]]) in
  let w' := (download_file int_of_digits stream_url ∅ video_file 1024 false
               w).2 in
  fs w !! video_file = Some (Regular [])
  ∧ entry_size (Regular []) = 0%Z
  ∧ (req_headers <$> sent w') !! 0%nat
    = Some {[ py "Range" := py "bytes=0-" ]}
  ∧ opens w' = [(video_file, ab)].
Proof.
  cbv zeta.
  assert (fs (serving {[ video_file := Regular [] ]} (answer [] [[x02]]))
          !! video_file = Some (Regular [])) as Hfile.
  { apply lookup_singleton_eq. }
  split; [exact Hfile|]. split; [reflexivity|].
  destruct (download_file_received int_of_digits stream_url ∅ video_file 1024
              false (serving {[ video_file := Regular [] ]} (answer [] [[x02]]))
              (answer [] [[x02]]) 0%Z)
    as (w' & Hrun & Hsent & Hopens & _);
    [reflexivity | by left | reflexivity
    | unfold open_failure; by rewrite Hfile |].
  rewrite Hrun. cbn [snd]. rewrite Hsent, Hopens, Hfile. by split.
Qed.

(** A title can name a directory: for the title [..] the path exists,
    so the request is ranged from the size of the directory and [open]
    is called for append, and raises; [main] lets that error go up. *)
Example title_names_a_directory :
  let w := serving {[ py ".." := Directory 4096 ]}
                   (answer (py "title=..&u|https://host/videoplayback?id=2")
                           [[x02]]) in
  let outcome := main int_of_digits (py "1AbC_d-9") None 1024 false w in
  outcome.1 = inr OSError
  ∧ sent outcome.2
    = [info_request (py "1AbC_d-9");
       download_request stream_url ∅ (Some (Directory 4096))]
  ∧ req_headers (download_request stream_url ∅ (Some (Directory 4096)))
    = {[ py "Range" := py "bytes=4096-" ]}
  ∧ opens outcome.2 = [(py "..", ab)]
  ∧ fs outcome.2 = fs w.
Proof. cbv zeta. vm_compute. repeat split. Qed.

(** C7.  For every download, that is whenever the info fetch succeeds
    and a stream URL is found, [download_file] is called with this file
    name: the override of the caller when one is given (a non-empty
    string); otherwise the decoded title with each of the nine invalid
    characters replaced by an underscore and the whitespace at either
    end taken off; and the identifier itself when the title is absent
    or nothing is left of it.  That cleaned title is what
    [sanitize_filename] returns: [My:Video/Name?], also with whitespace
    around it, gives [My_Video_Name_]. *)
Theorem output_filename_spec :
  (∀ (int_of_str : str → option Z) (video_id : str)
     (output_file : option str) (chunk_size : Z) (verbose : bool)
     (w : World) (response : Response) (video title : option str),
     net w (sent w) (info_request video_id) = Answered response →
     ¬ (400 ≤ status_code response < 600)%Z →
     scan_contents (split (text response) (ord "&")) None None
     = (video, title) →
     otruthy video = true →
     ∃ filename w1,
       download_from_video_id int_of_str video_id output_file chunk_size
         verbose w
       = download_file int_of_str (default [] video) (cookies response)
           filename chunk_size verbose w1
       ∧ fs w1 = fs w
       ∧ (∀ name, output_file = Some name → name ≠ [] → filename = name)
       ∧ (otruthy output_file = false →
          ∀ t name, title = Some t → stripped_of (underscored t) name →
                    name ≠ [] → filename = name)
       ∧ (otruthy output_file = false →
          title = None
          ∨ (∃ t, title = Some t ∧ stripped_of (underscored t) []) →
          filename = video_id))
  ∧ (∀ t name,
       stripped_of (underscored t) name
       ↔ sanitize_filename (Some t) = Some name)
  ∧ sanitize_filename (Some (py "My:Video/Name?"))
    = Some (py "My_Video_Name_")
  ∧ sanitize_filename (Some ([9] ++ py " My:Video/Name? " ++ [10]))
    = Some (py "My_Video_Name_").
Proof.
  split; [|split; [apply sanitize_filename_stripped
                  |split; vm_compute; reflexivity]].
  intros int_of_str video_id output_file chunk_size verbose w response video
    title Hnet Hok Hscan Hvideo.
  destruct (download_from_video_id_run int_of_str video_id output_file
              chunk_size verbose w response video title Hnet Hok Hscan Hvideo)
    as (w1 & Hrun & Hfs & _).
  exists (output_filename output_file title video_id), w1.
  split; [done|]. split; [done|]. apply output_filename_cases.
Qed.

Lemma output_filename_spec_witness :
  ∃ w1,
    download_from_video_id int_of_digits (py "1AbC_d-9") None 1024 false
      (serving ∅ (answer info_spaced []))
    = download_file int_of_digits stream_url ∅ (py "My_Video_Name_") 1024
        false w1
    ∧ fs w1 = ∅.
Proof.
  destruct (proj1 output_filename_spec int_of_digits (py "1AbC_d-9") None
              1024%Z false (serving ∅ (answer info_spaced []))
              (answer info_spaced []) (Some stream_url)
              (Some (py " My:Video/Name? ")))
    as (filename & w1 & Hrun & Hfs & _ & Htitle & _).
  - reflexivity.
  - simpl. lia.
  - vm_compute. reflexivity.
  - reflexivity.
  - exists w1. split; [|exact Hfs]. rewrite Hrun.
    rewrite (Htitle eq_refl (py " My:Video/Name? ") (py "My_Video_Name_"));
      [reflexivity | reflexivity | | discriminate].
    split; [|split].
    + exists (py " "), (py " "). split; [vm_compute; reflexivity|].
      split; by repeat constructor.
    + intros c [= <-]. reflexivity.
    + intros c [= <-]. reflexivity.
Defined.

Example output_filename_from_title :
  output_filename None (Some (py "My%3AVideo")) (py "1AbC_d-9")
  = py "My%3AVideo"
  ∧ output_filename None (Some (py " My:Video/Name? ")) (py "1AbC_d-9")
    = py "My_Video_Name_"
  ∧ output_filename (Some (py "out.mp4")) (Some (py "My Video")) (py "1AbC_d-9")
    = py "out.mp4"
  ∧ output_filename (Some []) (Some (py "   ")) (py "1AbC_d-9")
    = py "1AbC_d-9".
Proof. repeat split; vm_compute; reflexivity. Qed.

Lemma segment_at_match (s : str) (i : nat) (token : str) :
  segment_at s i token ↔ match_drive_pattern (drop i s) = Some token.
Proof.
  rewrite match_drive_pattern_segment. unfold segment_at. by rewrite drop_0.
Qed.

Lemma extract_drive_id_spec_witness :
  extract_drive_id (py "https://drive.google.com/file/d/1AbC_d-9/view")
  = py "1AbC_d-9"
  ∧ extract_drive_id (py "1AbC_d-9") = py "1AbC_d-9".
Proof.
  split.
  - apply (proj1 (extract_drive_id_spec
                    (py "https://drive.google.com/file/d/1AbC_d-9/view"))
             24%nat (py "1AbC_d-9")).
    + apply segment_at_match. vm_compute. reflexivity.
    + intros j token' Hj Hseg. apply segment_at_match in Hseg.
      do 24 (destruct j as [|j]; [vm_compute in Hseg; discriminate|]). lia.
  - apply (proj2 (extract_drive_id_spec (py "1AbC_d-9"))).
    intros i token Hseg. apply segment_at_match in Hseg.
    do 9 (destruct i as [|i]; [vm_compute in Hseg; discriminate|]).
    vm_compute in Hseg. discriminate.
Defined.

(** * Further properties of the script *)

Lemma try_except_run {A} (body : M A) (handler : str → M A) (w : World) :
  try_except_request body handler w
  = match body w with
    | (inr (RequestException e), w') => handler e w'
    | outcome => outcome
    end.
Proof. done. Qed.

Lemma raise_for_status_run (response : Response) (w : World) :
  raise_for_status response w
  = (match http_error response with
     | Some e => inr (RequestException e)
     | None => inl ()
     end, w).
Proof.
  unfold raise_for_status, http_error. cbv zeta.
  destruct ((400 <=? _)%Z && (_ <? 500)%Z); [done|].
  by destruct ((500 <=? _)%Z && (_ <? 600)%Z).
Qed.

Lemma http_error_status (response : Response) :
  is_Some (http_error response) ↔ (400 ≤ status_code response < 600)%Z.
Proof.
  unfold http_error. cbv zeta.
  destruct ((400 <=? _)%Z && (_ <? 500)%Z) eqn:H4.
  { split; [lia | by eexists]. }
  destruct ((500 <=? _)%Z && (_ <? 600)%Z) eqn:H5.
  { split; [lia | by eexists]. }
  split; [by intros [? ?] | lia].
Qed.

(** ** The folder lister: failures *)

Lemma lister_total (url : str) (verbose : bool) (w : World) :
  ∃ data_ids w',
    extract_bulk_data_ids_from_folder url verbose w = (inl data_ids, w')
    ∧ sent w' = sent w ++ [folder_request url]
    ∧ fs w' = fs w ∧ opens w' = opens w ∧ net w' = net w.
Proof.
  unfold extract_bulk_data_ids_from_folder, folder_request.
  rewrite bind_run, when_run.
  destruct verbose; exec; rewrite try_except_run; exec;
    (destruct (net w (sent w) _) as [response|message]; exec;
     [|by do 2 eexists]);
    rewrite raise_for_status_run;
    (destruct (http_error response) as [e|]; exec; [by do 2 eexists|]);
    destruct (foldl _ _ _) as [data_ids seen]; exec;
    rewrite ?for_each_print; by do 2 eexists.
Qed.

Lemma lister_failed (url : str) (verbose : bool) (w : World) (e : str) :
  net w (sent w) (folder_request url) = Failed e
  ∨ (∃ response,
       net w (sent w) (folder_request url) = Answered response
       ∧ http_error response = Some e) →
  ∃ w',
    extract_bulk_data_ids_from_folder url verbose w = (inl [], w')
    ∧ last (stdout w') = Some (Printed (py "Error fetching URL: " ++ e)).
Proof.
  intros Hfail.
  unfold extract_bulk_data_ids_from_folder, folder_request in *.
  rewrite bind_run, when_run.
  destruct Hfail as [Hnet|(response & Hnet & Herr)];
    destruct verbose; exec; rewrite try_except_run; exec; rewrite Hnet; exec;
    rewrite ?raise_for_status_run, ?Herr; exec;
    eexists; (split; [reflexivity|]); cbn [stdout]; apply last_snoc.
Qed.

(** X1. The folder lister never raises: whatever the remote side
    does, it returns a list, after exactly one request, and it opens
    and changes no file. *)
Theorem lister_never_raises (url : str) (verbose : bool) (w : World) :
  ∃ data_ids w',
    extract_bulk_data_ids_from_folder url verbose w = (inl data_ids, w')
    ∧ sent w' = sent w ++ [folder_request url]
    ∧ fs w' = fs w ∧ opens w' = opens w.
Proof.
  destruct (lister_total url verbose w)
    as (data_ids & w' & ? & ? & ? & ? & _).
  by exists data_ids, w'.
Qed.

(** X2. When the folder page cannot be fetched, because the request
    fails or because the answer has a 4xx or 5xx status, the folder
    lister returns the empty list and its last printed line is
    [Error fetching URL: <reason>]. *)
Theorem lister_failure_reported (url : str) (verbose : bool) (w : World)
    (e : str) :
  net w (sent w) (folder_request url) = Failed e
  ∨ (∃ response,
       net w (sent w) (folder_request url) = Answered response
       ∧ http_error response = Some e) →
  ∃ w',
    extract_bulk_data_ids_from_folder url verbose w = (inl [], w')
    ∧ last (stdout w') = Some (Printed (py "Error fetching URL: " ++ e)).
Proof. apply lister_failed. Qed.

Lemma lister_failure_reported_witness :
  ∃ w',
    extract_bulk_data_ids_from_folder folder_url true
      (serving ∅ (refusal 404)) = (inl [], w')
    ∧ last (stdout w')
      = Some (Printed (py "Error fetching URL: "
                       ++ py "404 Client Error:  for url: ")).
Proof.
  refine (lister_failure_reported folder_url true (serving ∅ (refusal 404))
            (py "404 Client Error:  for url: ") _).
  right. exists (refusal 404). split; vm_compute; reflexivity.
Defined.
(** ** The two definitions of the folder lister *)

Lemma shadowed_lister_failed (url : str) (verbose : bool) (w : World)
    (e : str) :
  net w (sent w) (folder_request url) = Failed e
  ∨ (∃ response,
       net w (sent w) (folder_request url) = Answered response
       ∧ http_error response = Some e) →
  ∃ w',
    Shadowed.extract_bulk_data_ids_from_folder url verbose w = (inl [], w')
    ∧ last (stdout w')
      = Some (Printed (py "Error fetching folder URL: " ++ e)).
Proof.
  intros Hfail.
  unfold Shadowed.extract_bulk_data_ids_from_folder, folder_request in *.
  rewrite bind_run, when_run.
  destruct Hfail as [Hnet|(response & Hnet & Herr)];
    destruct verbose; exec; rewrite try_except_run; exec; rewrite Hnet; exec;
    rewrite ?raise_for_status_run, ?Herr; exec;
    eexists; (split; [reflexivity|]); cbn [stdout]; apply last_snoc.
Qed.

(** What the two definitions print under [verbose] after a successful
    fetch. *)
Lemma listers_verbose_prints (url : str) (w : World) (response : Response) :
  net w (sent w) (folder_request url) = Answered response →
  http_error response = None →
  ∃ data_ids,
    (extract_bulk_data_ids_from_folder url true w).1 = inl data_ids
    ∧ stdout (Shadowed.extract_bulk_data_ids_from_folder url true w).2
      = stdout w
        ++ [Printed (py "[INFO] Fetching folder URL: " ++ url);
            Printed (py "[INFO] Total unique data-ids found: "
                     ++ of_nat (length data_ids))]
    ∧ stdout (extract_bulk_data_ids_from_folder url true w).2
      = stdout w
        ++ [Printed (py "[INFO] Fetching URL: " ++ url);
            Printed (py "[INFO] Total unique data-ids found: "
                     ++ of_nat (length data_ids))]
        ++ ((λ id, Printed (py "[INFO] Found data-id: " ++ id)) <$> data_ids).
Proof.
  intros Hnet Hok.
  unfold Shadowed.extract_bulk_data_ids_from_folder,
    extract_bulk_data_ids_from_folder, folder_request in *.
  rewrite !bind_run, !when_run. exec. rewrite !try_except_run. exec.
  rewrite Hnet. exec. rewrite !raise_for_status_run, Hok. exec.
  destruct (foldl _ _ _) as [data_ids seen]. exec.
  rewrite for_each_print. exec.
  exists data_ids. cbn [fst snd stdout].
  split; [done|]. by rewrite <- !app_assoc.
Qed.

(** C9, as the code has it.  The folder lister of lines 19-47 and the
    one of lines 78-110 that replaces it return the same identifier
    list (or the same empty list after a failed fetch) for every answer
    of the remote side, and leave the same files, requests and opened
    files behind; after a successful fetch without [verbose] the whole
    outcome is the same.  What they print differs: after a failed fetch
    the first ends with [Error fetching folder URL: <reason>] and the
    second with [Error fetching URL: <reason>]; under [verbose] and
    after a successful fetch the first prints
    [[INFO] Fetching folder URL: <url>] and the count line, the second
    [[INFO] Fetching URL: <url>], the count line and one
    [[INFO] Found data-id: <id>] line for each identifier. *)
Theorem shadowed_lister_same_ids (url : str) (verbose : bool) (w : World) :
  let old := Shadowed.extract_bulk_data_ids_from_folder url verbose w in
  let new := extract_bulk_data_ids_from_folder url verbose w in
  old.1 = new.1
  ∧ fs old.2 = fs new.2 ∧ sent old.2 = sent new.2
  ∧ opens old.2 = opens new.2 ∧ net old.2 = net new.2
  ∧ (∀ response,
       verbose = false →
       net w (sent w) (folder_request url) = Answered response →
       http_error response = None →
       old = new)
  ∧ (∀ e,
       net w (sent w) (folder_request url) = Failed e
       ∨ (∃ response,
            net w (sent w) (folder_request url) = Answered response
            ∧ http_error response = Some e) →
       last (stdout old.2)
       = Some (Printed (py "Error fetching folder URL: " ++ e))
       ∧ last (stdout new.2) = Some (Printed (py "Error fetching URL: " ++ e)))
  ∧ (∀ response,
       verbose = true →
       net w (sent w) (folder_request url) = Answered response →
       http_error response = None →
       ∃ data_ids,
         new.1 = inl data_ids
         ∧ stdout old.2
           = stdout w
             ++ [Printed (py "[INFO] Fetching folder URL: " ++ url);
                 Printed (py "[INFO] Total unique data-ids found: "
                          ++ of_nat (length data_ids))]
         ∧ stdout new.2
           = stdout w
             ++ [Printed (py "[INFO] Fetching URL: " ++ url);
                 Printed (py "[INFO] Total unique data-ids found: "
                          ++ of_nat (length data_ids))]
             ++ ((λ id, Printed (py "[INFO] Found data-id: " ++ id))
                 <$> data_ids)).
Proof.
  cbv zeta.
  assert (∀ v,
    let old := Shadowed.extract_bulk_data_ids_from_folder url v w in
    let new := extract_bulk_data_ids_from_folder url v w in
    old.1 = new.1
    ∧ fs old.2 = fs new.2 ∧ sent old.2 = sent new.2
    ∧ opens old.2 = opens new.2 ∧ net old.2 = net new.2
    ∧ (∀ response,
         v = false →
         net w (sent w) (folder_request url) = Answered response →
         http_error response = None →
         old = new)) as Hsame.
  { intros v. cbv zeta.
    unfold Shadowed.extract_bulk_data_ids_from_folder,
      extract_bulk_data_ids_from_folder, folder_request.
    rewrite !bind_run, !when_run.
    destruct v; exec; rewrite !try_except_run; exec;
      (destruct (net w (sent w) _) as [response|message]; exec;
       [|repeat split; done]);
      rewrite !raise_for_status_run;
      (destruct (http_error response) as [e|] eqn:Herr; exec;
       [repeat split; try done; intros ? ? [= <-] ?; congruence|]);
      destruct (foldl _ _ _) as [data_ids seen]; exec;
      rewrite ?for_each_print; exec; repeat split; done. }
  destruct (Hsame verbose) as (H1 & H2 & H3 & H4 & H5 & H6).
  do 5 (split; [done|]). split; [exact H6|]. split.
  - intros e Hfail.
    destruct (shadowed_lister_failed url verbose w e Hfail) as (w1 & -> & ?).
    destruct (lister_failed url verbose w e Hfail) as (w2 & -> & ?).
    done.
  - intros response -> Hnet Hok.
    by apply (listers_verbose_prints url w response).
Qed.

Lemma shadowed_lister_same_ids_witness :
  Shadowed.extract_bulk_data_ids_from_folder folder_url false
    (serving ∅ (answer page_long []))
  = extract_bulk_data_ids_from_folder folder_url false
      (serving ∅ (answer page_long []))
  ∧ (last (stdout (Shadowed.extract_bulk_data_ids_from_folder folder_url false
                     (serving ∅ (refusal 404))).2)
     = Some (Printed (py "Error fetching folder URL: "
                      ++ py "404 Client Error:  for url: "))
     ∧ last (stdout (extract_bulk_data_ids_from_folder folder_url false
                       (serving ∅ (refusal 404))).2)
       = Some (Printed (py "Error fetching URL: "
                        ++ py "404 Client Error:  for url: "))).
Proof.
  split.
  - refine (proj1 (proj2 (proj2 (proj2 (proj2 (proj2
              (shadowed_lister_same_ids folder_url false
                 (serving ∅ (answer page_long []))))))))
              (answer page_long []) _ _ _); reflexivity.
  - refine (proj1 (proj2 (proj2 (proj2 (proj2 (proj2 (proj2
              (shadowed_lister_same_ids folder_url false
                 (serving ∅ (refusal 404)))))))))
              (py "404 Client Error:  for url: ") _).
    right. exists (refusal 404). split; vm_compute; reflexivity.
Defined.

(** C9, as stated, fails: the shadowing changes what the program
    prints.  After a failed fetch the two definitions print different
    lines, and under [verbose] the second lists the identifiers, which
    the first does not. *)
Lemma shadowed_lister_prints_differ :
  stdout (Shadowed.extract_bulk_data_ids_from_folder folder_url false
            offline).2
  = [Printed (py "Error fetching folder URL: unreachable")]
  ∧ stdout (extract_bulk_data_ids_from_folder folder_url false offline).2
    = [Printed (py "Error fetching URL: unreachable")]
  ∧ Shadowed.extract_bulk_data_ids_from_folder folder_url false offline
    ≠ extract_bulk_data_ids_from_folder folder_url false offline
  ∧ length (stdout (Shadowed.extract_bulk_data_ids_from_folder folder_url true
                      (serving ∅ (answer page_long []))).2) = 2%nat
  ∧ length (stdout (extract_bulk_data_ids_from_folder folder_url true
                      (serving ∅ (answer page_long []))).2) = 4%nat.
Proof.
  split; [vm_compute; reflexivity|]. split; [vm_compute; reflexivity|].
  split; [|split; vm_compute; reflexivity].
  intros Heq. apply (f_equal (λ outcome, stdout outcome.2)) in Heq.
  vm_compute in Heq. discriminate Heq.
Qed.

(** ** The folder lister: what it lists *)

Lemma match_data_id_pattern_attribute (s value rest : str) :
  match_data_id_pattern s = Some (value, rest) →
  ∃ ws0 ws1 q q',
    s = data_id ++ ws0 ++ ord "=" :: ws1 ++ q :: value ++ q' :: rest
    ∧ Forall (λ c, isspace c = true) ws0
    ∧ Forall (λ c, isspace c = true) ws1
    ∧ is_quote q = true ∧ is_quote q' = true
    ∧ value ≠ []
    ∧ Forall (λ c, is_quote c = false) value.
Proof. intros Hat%attribute_at_match. exact Hat. Qed.

Lemma findall_data_id_attribute (body value : str) :
  value ∈ findall_data_id body → occurs_as_attribute body value.
Proof.
  remember (length body) as n eqn:Hn.
  revert body Hn. induction (lt_wf n) as [n _ IH]. intros body -> Hin.
  rewrite findall_data_id_eq in Hin.
  destruct (match_data_id_pattern body) as [[v rest]|] eqn:Hm.
  - apply match_data_id_pattern_attribute in Hm
      as (ws0 & ws1 & q & q' & Hbody & Hws0 & Hws1 & Hq & Hq' & Hne & Hv).
    apply elem_of_cons in Hin as [->|Hin].
    + by exists [], ws0, ws1, q, q', rest.
    + destruct (IH (length rest)) with (body := rest)
        as (pre & ws0' & ws1' & p & p' & post & Hrest & ?); [|done|done|].
      { rewrite Hbody. repeat (rewrite ?length_app; cbn [length]). lia. }
      exists (data_id ++ ws0 ++ ord "=" :: ws1 ++ q :: v ++ q' :: pre),
        ws0', ws1', p, p', post.
      split; [|done]. rewrite Hbody, Hrest.
      repeat (rewrite <- ?app_assoc; cbn [app]). done.
  - destruct body as [|c body]; [by apply elem_of_nil in Hin|].
    destruct (IH (length body)) with (body := body)
      as (pre & ws0 & ws1 & q & q' & post & Hbody & ?);
      [cbn [length]; lia|done|done|].
    exists (c :: pre), ws0, ws1, q, q', post. split; [|done].
    by rewrite Hbody.
Qed.

(** X3. Every identifier the folder lister returns after a successful
    fetch is the value of a [data-id] attribute of the page: it stands
    in the body between two quotes after [data-id], [=] and optional
    whitespace, and it holds no quote character. *)
Theorem listed_ids_occur_in_body (url : str) (verbose : bool) (w : World)
    (response : Response) (data_ids : list str) (w' : World) :
  net w (sent w) (folder_request url) = Answered response →
  http_error response = None →
  extract_bulk_data_ids_from_folder url verbose w = (inl data_ids, w') →
  Forall (occurs_as_attribute (text response)) data_ids.
Proof.
  intros Hnet Hok Hrun.
  assert (¬ (400 ≤ status_code response < 600)%Z) as Hstatus.
  { intros Herr%http_error_status. rewrite Hok in Herr. by destruct Herr. }
  pose proof (lister_fetched url verbose w response Hnet Hstatus) as Hids.
  rewrite Hrun in Hids. injection Hids as ->.
  apply Forall_forall. intros v Hv.
  apply first_occurrences_elem_of, list_elem_of_filter in Hv as [_ Hv].
  by apply findall_data_id_attribute.
Qed.

Lemma listed_ids_occur_in_body_witness :
  Forall (occurs_as_attribute page_long) [py "1AbCdE"; py "2FgHiJ"].
Proof.
  refine (listed_ids_occur_in_body folder_url false
            (serving ∅ (answer page_long [])) (answer page_long [])
            [py "1AbCdE"; py "2FgHiJ"]
            (extract_bulk_data_ids_from_folder folder_url false
               (serving ∅ (answer page_long []))).2 _ _ _).
  - reflexivity.
  - reflexivity.
  - vm_compute. reflexivity.
Defined.

(** ** The stream locator: absent values and the early stop *)

Lemma split_app_fields (a b : str) (sep : N) :
  split (a ++ sep :: b) sep = split a sep ++ split b sep.
Proof.
  induction a as [|c a IH]; simpl.
  - by rewrite N.eqb_refl.
  - rewrite IH. destruct (c =? sep); [done|].
    pose proof (split_nonempty a sep) as Hne.
    by destruct (split a sep).
Qed.

Section ScanMore.

Local Abbreviation is_title content := (startswith content (py "title=")).
Local Abbreviation has_video content :=
  (contains content (py "videoplayback")).

Lemma scan_title_none (contents : list str) (video title : option str) :
  (scan_contents contents video title).2 = None →
  title = None ∧ Forall (λ content, is_title content = false) contents.
Proof.
  revert video title.
  induction contents as [|content contents IH]; intros video title.
  { simpl. by intros ->. }
  rewrite scan_contents_cons. cbv zeta.
  set (found := if is_title content && negb (otruthy title) then _ else _).
  assert (found.2 = None →
          title = None ∧ is_title content = false) as Hfound.
  { subst found.
    destruct (is_title content && negb (otruthy title)) eqn:Hcond; [done|].
    destruct (has_video content && negb (otruthy video)); cbn [snd];
      intros ->; cbn [otruthy negb] in Hcond;
      by rewrite andb_true_r in Hcond. }
  destruct (otruthy found.1 && otruthy found.2) eqn:Hbreak.
  - intros Hnone. rewrite Hnone in Hbreak. by rewrite andb_false_r in Hbreak.
  - intros [Hnone Hrest]%IH. destruct (Hfound Hnone) as [-> ?].
    split; [done | by constructor].
Qed.

Lemma scan_video_none (contents : list str) (title : option str) :
  Forall (λ content, has_video content = false) contents →
  (scan_contents contents None title).1 = None.
Proof.
  intros Hnone.
  destruct (scan_before_video contents [] title Hnone) as [title' Hscan].
  rewrite app_nil_r in Hscan. by rewrite Hscan.
Qed.

Lemma scan_found_stable (contents more : list str) (video title : option str)
    (v t : str) :
  scan_contents contents video title = (Some v, Some t) →
  v ≠ [] → t ≠ [] →
  scan_contents (contents ++ more) video title = (Some v, Some t).
Proof.
  intros Hscan Hv Ht. revert video title Hscan.
  induction contents as [|content contents IH]; intros video title.
  - simpl. intros [= -> ->].
    pose proof (scan_video_kept more v (Some t) Hv) as H1.
    pose proof (scan_title_kept more (Some v) t Ht) as H2.
    destruct (scan_contents more (Some v) (Some t)). simpl in *. congruence.
  - rewrite <- app_comm_cons, !scan_contents_cons. cbv zeta.
    match goal with
    | |- context [if otruthy ?a && otruthy ?b then _ else _] =>
        destruct (otruthy a && otruthy b); [done | apply IH]
    end.
Qed.

End ScanMore.

(** X4. The title the stream locator returns is absent exactly when no
    token of the text starts with [title=]; and when no token contains
    [videoplayback] the URL is absent. *)
Theorem locator_absent_values (page_content : str) (verbose : bool)
    (w : World) :
  ∃ video title,
    (get_video_url page_content verbose w).1 = inl (video, title)
    ∧ (title = None
       ↔ Forall (λ content, startswith content (py "title=") = false)
                (split page_content (ord "&")))
    ∧ (Forall (λ content, contains content (py "videoplayback") = false)
              (split page_content (ord "&")) →
       video = None).
Proof.
  rewrite get_video_url_result.
  destruct (scan_contents _ None None) as [video title] eqn:Hscan.
  exists video, title. split; [done|]. split; [split|].
  - intros ->. eapply scan_title_none. by rewrite Hscan.
  - intros Hnone.
    destruct (scan_before_title _ [] None Hnone) as [video' Hscan'].
    rewrite app_nil_r, Hscan in Hscan'. simpl in Hscan'. congruence.
  - intros Hnone. pose proof (scan_video_none _ None Hnone) as Hv.
    by rewrite Hscan in Hv.
Qed.

(** X5. Once the stream locator has found a non-empty URL and a
    non-empty title, tokens appended to the text do not change its
    result. *)
Theorem locator_ignores_later_tokens (page_content extra v t : str)
    (verbose : bool) (w w2 : World) :
  (get_video_url page_content verbose w).1 = inl (Some v, Some t) →
  v ≠ [] → t ≠ [] →
  (get_video_url (page_content ++ ord "&" :: extra) verbose w2).1
  = inl (Some v, Some t).
Proof.
  rewrite !get_video_url_result, split_app_fields.
  intros [= Hscan] Hv Ht. f_equal. by apply scan_found_stable.
Qed.

Lemma locator_ignores_later_tokens_witness :
  (get_video_url
     (info_example ++ ord "&" :: py "title=Other&x|videoplayback?id=9")
     false offline).1
  = inl (Some stream_url, Some (py "My Video")).
Proof.
  refine (locator_ignores_later_tokens info_example
            (py "title=Other&x|videoplayback?id=9") stream_url (py "My Video")
            false offline offline _ _ _).
  - vm_compute. reflexivity.
  - discriminate.
  - discriminate.
Defined.
(** ** The downloader: what it leaves on disk *)

(** X6. [download_file] changes no file other than the one it is asked
    to write, whatever the remote side answers. *)
Theorem download_file_touches_one_file (int_of_str : str → option Z)
    (url : str) (cookies : gmap str str) (filename other : str)
    (chunk_size : Z) (verbose : bool) (w : World) :
  other ≠ filename →
  fs (download_file int_of_str url cookies filename chunk_size verbose w).2
  !! other
  = fs w !! other.
Proof.
  intros Hother.
  destruct (download_file_frame int_of_str url cookies filename chunk_size
              verbose w) as (_ & _ & [-> | [entry ->]] & _); [done|].
  by apply lookup_insert_ne.
Qed.

Lemma download_file_touches_one_file_witness :
  fs (download_file int_of_digits stream_url ∅ video_file 1024 false
        (serving {[ py "notes.txt" := Regular [x41] ]}
                 (answer [] [[x02]]))).2
  !! py "notes.txt"
  = Some (Regular [x41]).
Proof.
  refine (download_file_touches_one_file int_of_digits stream_url ∅ video_file
            (py "notes.txt") 1024 false
            (serving {[ py "notes.txt" := Regular [x41] ]}
                     (answer [] [[x02]])) _).
  vm_compute. discriminate.
Defined.

(** X7. A transfer that breaks keeps what it received, and the next
    call on the same file resumes from there.  The local path is absent
    or a regular file, and [open] does not refuse it.  When the first
    answer is accepted, its length is readable and its stream ends with
    a transport error after some chunks, the call raises that error and
    the file holds its old content followed by those chunks; a second
    call for that file (for the same URL or for another one) then asks
    for the bytes from that size on and, when it is served to the end,
    leaves the old content followed by the chunks of both calls. *)
Theorem download_file_resumes (int_of_str : str → option Z) (url url' : str)
    (cookies cookies' : gmap str str) (filename : str) (chunk_size : Z)
    (verbose : bool) (w : World) (previous : option bytes)
    (first second : Response) (declared1 declared2 : Z)
    (chunks1 chunks2 : list bytes) (e : str) :
  let old := default [] previous in
  let kept := Regular (old ++ concat chunks1) in
  let request1 := download_request url cookies (fs w !! filename) in
  let request2 := download_request url' cookies' (Some kept) in
  let outcome1 :=
    download_file int_of_str url cookies filename chunk_size verbose w in
  let outcome2 :=
    download_file int_of_str url' cookies' filename chunk_size verbose
      outcome1.2 in
  fs w !! filename = Regular <$> previous →
  (∀ mode, open_error w filename mode = None) →
  net w (sent w) request1 = Answered first →
  status_code first = 200%Z ∨ status_code first = 206%Z →
  match content_length first with
  | None => declared1 = 0%Z
  | Some header => int_of_str header = Some declared1
  end →
  iter_content first chunk_size = (chunks1, Some e) →
  net w (sent w ++ [request1]) request2 = Answered second →
  status_code second = 200%Z ∨ status_code second = 206%Z →
  match content_length second with
  | None => declared2 = 0%Z
  | Some header => int_of_str header = Some declared2
  end →
  iter_content second chunk_size = (chunks2, None) →
  outcome1.1 = inr (RequestException e)
  ∧ fs outcome1.2 !! filename = Some kept
  ∧ outcome2.1 = inl ()
  ∧ fs outcome2.2 !! filename
    = Some (Regular (old ++ concat chunks1 ++ concat chunks2))
  ∧ sent outcome2.2 = sent w ++ [request1; request2]
  ∧ req_headers request2 !! py "Range"
    = Some (py "bytes=" ++ of_Z (Z.of_nat (length (old ++ concat chunks1)))
            ++ py "-").
Proof.
  cbv zeta.
  intros Hfile Hopen Hnet1 Hok1 Hlen1 Hiter1 Hnet2 Hok2 Hlen2 Hiter2.
  destruct (download_file_frame int_of_str url cookies filename chunk_size
              verbose w) as (_ & _ & _ & Hnet & Herr).
  destruct (download_file_received int_of_str url cookies filename chunk_size
              verbose w first declared1 Hnet1 Hok1 Hlen1)
    as (w1 & Hrun1 & Hsent1 & _ & Hfs1 & _).
  { unfold open_failure. rewrite Hfile, Hopen. by destruct previous. }
  rewrite Hiter1 in Hrun1, Hfs1. cbn [fst snd] in *.
  rewrite Hrun1 in *. cbn [fst snd] in *.
  assert (fs w1 !! filename
          = Some (Regular (default [] previous ++ concat chunks1))) as Hkept.
  { rewrite Hfs1, lookup_insert_eq, Hfile. by destruct previous. }
  rewrite <- Hnet, <- Hsent1, <- Hkept in Hnet2.
  destruct (download_file_received int_of_str url' cookies' filename
              chunk_size verbose w1 second declared2 Hnet2 Hok2 Hlen2)
    as (w2 & Hrun2 & Hsent2 & _ & Hfs2 & _).
  { unfold open_failure. by rewrite Hkept, Herr, Hopen. }
  rewrite Hiter2 in Hrun2, Hfs2. cbn [fst snd] in *.
  rewrite Hrun2. cbn [fst snd].
  do 3 (split; [done|]). split; [|split].
  - rewrite Hfs2, lookup_insert_eq, Hkept. cbn [received written].
    by rewrite <- app_assoc.
  - rewrite Hsent2, Hsent1, Hkept, <- app_assoc. done.
  - apply lookup_singleton_eq.
Qed.

Lemma download_file_resumes_witness :
  let first :=
    partial_content (py "12") [[x01; x02]] (Some (py "connection reset")) in
  let second := partial_content (py "2") [[x03]; [x04]] None in
  let w := world {[ video_file := Regular [x00] ]} (info_then first second) in
  let outcome1 :=
    download_file int_of_digits stream_url ∅ video_file 1024 false w in
  let outcome2 :=
    download_file int_of_digits stream_url ∅ video_file 1024 false
      outcome1.2 in
  outcome1.1 = inr (RequestException (py "connection reset"))
  ∧ fs outcome1.2 !! video_file = Some (Regular [x00; x01; x02])
  ∧ outcome2.1 = inl ()
  ∧ fs outcome2.2 !! video_file = Some (Regular [x00; x01; x02; x03; x04])
  ∧ sent outcome2.2
    = [download_request stream_url ∅ (Some (Regular [x00]));
       download_request stream_url ∅ (Some (Regular [x00; x01; x02]))]
  ∧ req_headers (download_request stream_url ∅
                   (Some (Regular [x00; x01; x02]))) !! py "Range"
    = Some (py "bytes=3-").
Proof.
  cbv zeta.
  pose proof (download_file_resumes int_of_digits stream_url stream_url ∅ ∅
                video_file 1024 false
                (world {[ video_file := Regular [x00] ]}
                   (info_then
                      (partial_content (py "12") [[x01; x02]]
                         (Some (py "connection reset")))
                      (partial_content (py "2") [[x03]; [x04]] None)))
                (Some [x00])
                (partial_content (py "12") [[x01; x02]]
                   (Some (py "connection reset")))
                (partial_content (py "2") [[x03]; [x04]] None) 12 2
                [[x01; x02]] [[x03]; [x04]] (py "connection reset"))
    as Hresume.
  cbv zeta in Hresume. cbn [world fs sent net] in Hresume.
  rewrite lookup_singleton_eq in Hresume.
  apply Hresume.
  - reflexivity.
  - reflexivity.
  - reflexivity.
  - by right.
  - vm_compute. reflexivity.
  - reflexivity.
  - reflexivity.
  - by right.
  - vm_compute. reflexivity.
  - reflexivity.
Defined.

(** X8. When the answer has status 200 or 206 but its [content-length]
    cannot be read as an integer, [download_file] raises [ValueError]
    after the request has been sent, before any file is opened, and
    leaves every file as it was. *)
Theorem download_file_unreadable_length (int_of_str : str → option Z)
    (url : str) (cookies : gmap str str) (filename : str) (chunk_size : Z)
    (verbose : bool) (w : World) (response : Response) (header : str) :
  net w (sent w) (download_request url cookies (fs w !! filename))
  = Answered response →
  status_code response = 200%Z ∨ status_code response = 206%Z →
  content_length response = Some header →
  int_of_str header = None →
  ∃ w',
    download_file int_of_str url cookies filename chunk_size verbose w
    = (inr ValueError, w')
    ∧ sent w' = sent w ++ [download_request url cookies (fs w !! filename)]
    ∧ opens w' = opens w ∧ fs w' = fs w.
Proof. apply download_file_value_error. Qed.

Lemma download_file_unreadable_length_witness :
  ∃ w',
    download_file int_of_digits stream_url ∅ video_file 1024 false
      (serving ∅ garbled_length)
    = (inr ValueError, w')
    ∧ sent w' = [] ++ [download_request stream_url ∅ None]
    ∧ opens w' = [] ∧ fs w' = ∅.
Proof.
  refine (download_file_unreadable_length int_of_digits stream_url ∅
            video_file 1024 false (serving ∅ garbled_length) garbled_length
            (py "12 bytes") _ _ _ _).
  - reflexivity.
  - by left.
  - reflexivity.
  - vm_compute. reflexivity.
Defined.

(** X20. When the status is 200 or 206, the declared length is
    readable and [open] goes through, the progress bar is closed in
    every case, and the line [<filename> downloaded successfully.]
    (after a line break) is printed, as the last line, only when the
    stream came to its end: when the stream breaks, closing the bar is
    the last thing reported.  When [open] raises instead, its error
    goes up and nothing but the lines of [verbose] is printed. *)
Theorem download_file_success_line (int_of_str : str → option Z) (url : str)
    (cookies : gmap str str) (filename : str) (chunk_size : Z)
    (verbose : bool) (w : World) (response : Response) (declared : Z) :
  net w (sent w) (download_request url cookies (fs w !! filename))
  = Answered response →
  status_code response = 200%Z ∨ status_code response = 206%Z →
  match content_length response with
  | None => declared = 0%Z
  | Some header => int_of_str header = Some declared
  end →
  let outcome :=
    download_file int_of_str url cookies filename chunk_size verbose w in
  match open_failure w filename (download_mode (fs w !! filename)) with
  | None =>
      (outcome.1 = inl ()
       ↔ last (stdout outcome.2)
         = Some (Printed ([10] ++ filename
                          ++ py " downloaded successfully.")))
      ∧ (outcome.1 ≠ inl () → last (stdout outcome.2) = Some PbarClose)
  | Some e =>
      outcome.1 = inr e
      ∧ stdout outcome.2
        = stdout w ++ announced url (fs w !! filename) verbose
  end.
Proof.
  intros Hnet Hstatus Hdeclared. cbv zeta.
  destruct (open_failure w filename _) as [e|] eqn:Hopen.
  - destruct (download_file_open_failed int_of_str url cookies filename
                chunk_size verbose w response declared e Hnet Hstatus
                Hdeclared Hopen) as (w' & -> & _ & _ & _ & Hout).
    done.
  - destruct (download_file_received int_of_str url cookies filename
                chunk_size verbose w response declared Hnet Hstatus Hdeclared
                Hopen) as (w' & -> & _ & _ & _ & Hlast).
    cbn [fst snd]. rewrite Hlast. destruct (iter_content response chunk_size).2; split;
      (done || split; done).
Qed.

Lemma download_file_success_line_witness :
  let outcome :=
    download_file int_of_digits stream_url ∅ video_file 1024 false
      (serving ∅ (answer [] [[x01]; [x02]])) in
  (outcome.1 = inl ()
   ↔ last (stdout outcome.2)
     = Some (Printed ([10] ++ video_file ++ py " downloaded successfully.")))
  ∧ (outcome.1 ≠ inl () → last (stdout outcome.2) = Some PbarClose).
Proof.
  refine (download_file_success_line int_of_digits stream_url ∅ video_file
            1024 false (serving ∅ (answer [] [[x01]; [x02]]))
            (answer [] [[x01]; [x02]]) 0%Z _ _ _).
  - reflexivity.
  - by left.
  - reflexivity.
Defined.

(** ** One identifier: the info fetch and what follows *)

Section PerIdentifier.

Variable int_of_str : str → option Z.

Lemma info_fetch_failed (video_id : str) (output_file : option str)
    (chunk_size : Z) (verbose : bool) (w : World) (e : str) :
  net w (sent w) (info_request video_id) = Failed e
  ∨ (∃ response,
       net w (sent w) (info_request video_id) = Answered response
       ∧ http_error response = Some e) →
  ∃ w',
    download_from_video_id int_of_str video_id output_file chunk_size verbose w
    = (inr (RequestException e), w')
    ∧ sent w' = sent w ++ [info_request video_id]
    ∧ fs w' = fs w ∧ opens w' = opens w ∧ net w' = net w.
Proof.
  intros Hfail. unfold download_from_video_id, info_request in *. cbv zeta.
  destruct Hfail as [Hnet|(response & Hnet & Herr)];
    destruct verbose; exec; rewrite Hnet; exec;
    rewrite ?raise_for_status_run, ?Herr; exec; by eexists.
Qed.

Lemma info_without_url (video_id : str) (output_file : option str)
    (chunk_size : Z) (verbose : bool) (w : World) (response : Response)
    (video title : option str) :
  net w (sent w) (info_request video_id) = Answered response →
  http_error response = None →
  scan_contents (split (text response) (ord "&")) None None = (video, title) →
  otruthy video = false →
  ∃ w',
    download_from_video_id int_of_str video_id output_file chunk_size verbose w
    = (inl (), w')
    ∧ sent w' = sent w ++ [info_request video_id]
    ∧ fs w' = fs w ∧ opens w' = opens w ∧ net w' = net w
    ∧ last (stdout w')
      = Some (Printed (py "Unable to retrieve the video URL for id "
                       ++ video_id ++ py ".")).
Proof.
  intros Hnet Hok Hscan Hvideo.
  unfold download_from_video_id, info_request in *. cbv zeta.
  destruct verbose; exec; rewrite Hnet; exec;
    rewrite raise_for_status_run, Hok; exec;
    match goal with
    | |- context [get_video_url ?text ?v ?w0] =>
        destruct (get_video_url_run text v w0)
          as (w1 & -> & Hfs & Hsent & Hopens & Hnet1)
    end;
    rewrite Hscan; exec; rewrite Hvideo; exec;
    eexists; (split; [reflexivity|]); cbn [fs stdout sent opens net];
    rewrite Hfs, Hsent, Hopens, Hnet1; cbn [fs stdout sent opens net];
    repeat split; apply last_snoc.
Qed.

Lemma info_with_url (video_id : str) (output_file : option str)
    (chunk_size : Z) (verbose : bool) (w : World) (response : Response)
    (video title : option str) :
  net w (sent w) (info_request video_id) = Answered response →
  http_error response = None →
  scan_contents (split (text response) (ord "&")) None None = (video, title) →
  otruthy video = true →
  ∃ w1,
    download_from_video_id int_of_str video_id output_file chunk_size verbose w
    = download_file int_of_str (default [] video) (cookies response)
        (output_filename output_file title video_id) chunk_size verbose w1
    ∧ sent w1 = sent w ++ [info_request video_id]
    ∧ fs w1 = fs w ∧ opens w1 = opens w ∧ net w1 = net w.
Proof.
  intros Hnet Hok Hscan Hvideo.
  unfold download_from_video_id, info_request in *. cbv zeta.
  destruct verbose; exec; rewrite Hnet; exec;
    rewrite raise_for_status_run, Hok; exec;
    match goal with
    | |- context [get_video_url ?text ?v ?w0] =>
        destruct (get_video_url_run text v w0)
          as (w1 & -> & Hfs & Hsent & Hopens & Hnet1)
    end;
    rewrite Hscan; exec; rewrite Hvideo; exists w1;
    rewrite Hfs, Hsent, Hopens, Hnet1; done.
Qed.

(** Whatever happens, the first request for an identifier is its info
    request and at most one request follows, the streamed download. *)
Lemma per_identifier_requests (video_id : str) (output_file : option str)
    (chunk_size : Z) (verbose : bool) (w : World) :
  ∃ more,
    sent (download_from_video_id int_of_str video_id output_file chunk_size
            verbose w).2
    = sent w ++ info_request video_id :: more
    ∧ Forall (λ request, req_stream request = true) more.
Proof.
  destruct (net w (sent w) (info_request video_id)) as [response|e] eqn:Hnet.
  - destruct (http_error response) as [e|] eqn:Herr.
    + destruct (info_fetch_failed video_id output_file chunk_size verbose w e)
        as (w' & Hrun & Hsent & _); [right; eauto|].
      rewrite Hrun. cbn [snd]. rewrite Hsent. by exists [].
    + destruct (scan_contents (split (text response) (ord "&")) None None)
        as [video title] eqn:Hscan.
      destruct (otruthy video) eqn:Hvideo.
      * destruct (info_with_url video_id output_file chunk_size verbose w
                    response video title Hnet Herr Hscan Hvideo)
          as (w1 & Hrun & Hsent & _).
        destruct (download_file_sent_opens int_of_str (default [] video)
                    (cookies response)
                    (output_filename output_file title video_id) chunk_size
                    verbose w1) as [Hsent' _].
        rewrite Hrun, Hsent', Hsent, <- app_assoc.
        eexists. split; [reflexivity|]. by repeat constructor.
      * destruct (info_without_url video_id output_file chunk_size verbose w
                    response video title Hnet Herr Hscan Hvideo)
          as (w' & Hrun & Hsent & _).
        rewrite Hrun. cbn [snd]. rewrite Hsent. by exists [].
  - destruct (info_fetch_failed video_id output_file chunk_size verbose w e)
      as (w' & Hrun & Hsent & _); [by left|].
    rewrite Hrun. cbn [snd]. rewrite Hsent. by exists [].
Qed.

End PerIdentifier.

(** X9. When the info fetch for an identifier fails, because the
    request fails or the answer has a 4xx or 5xx status,
    [download_from_video_id] raises that error; the info request is
    the only request sent and no file is opened or changed. *)
Theorem failed_info_fetch_raises (int_of_str : str → option Z)
    (video_id : str) (output_file : option str) (chunk_size : Z)
    (verbose : bool) (w : World) (e : str) :
  net w (sent w) (info_request video_id) = Failed e
  ∨ (∃ response,
       net w (sent w) (info_request video_id) = Answered response
       ∧ http_error response = Some e) →
  ∃ w',
    download_from_video_id int_of_str video_id output_file chunk_size verbose w
    = (inr (RequestException e), w')
    ∧ sent w' = sent w ++ [info_request video_id]
    ∧ fs w' = fs w ∧ opens w' = opens w.
Proof.
  intros Hfail.
  destruct (info_fetch_failed int_of_str video_id output_file chunk_size
              verbose w e Hfail) as (w' & ? & ? & ? & ? & _).
  by exists w'.
Qed.

Lemma failed_info_fetch_raises_witness :
  ∃ w',
    download_from_video_id int_of_digits (py "1AbC_d-9") None 1024 true offline
    = (inr (RequestException (py "unreachable")), w')
    ∧ sent w' = [] ++ [info_request (py "1AbC_d-9")]
    ∧ fs w' = ∅ ∧ opens w' = [].
Proof.
  refine (failed_info_fetch_raises int_of_digits (py "1AbC_d-9") None 1024
            true offline (py "unreachable") _).
  left. reflexivity.
Defined.

(** X10. When the info text yields no stream URL (none found, or an
    empty one), [download_from_video_id] returns normally with
    [Unable to retrieve the video URL for id <id>.] as its last line;
    no download request is sent and no file is opened or changed. *)
Theorem missing_url_reported (int_of_str : str → option Z)
    (video_id : str) (output_file : option str) (chunk_size : Z)
    (verbose : bool) (w : World) (response : Response)
    (video title : option str) :
  net w (sent w) (info_request video_id) = Answered response →
  http_error response = None →
  (get_video_url (text response) verbose w).1 = inl (video, title) →
  otruthy video = false →
  ∃ w',
    download_from_video_id int_of_str video_id output_file chunk_size verbose w
    = (inl (), w')
    ∧ sent w' = sent w ++ [info_request video_id]
    ∧ fs w' = fs w ∧ opens w' = opens w
    ∧ last (stdout w')
      = Some (Printed (py "Unable to retrieve the video URL for id "
                       ++ video_id ++ py ".")).
Proof.
  intros Hnet Hok Hlocate Hvideo.
  rewrite get_video_url_result in Hlocate. injection Hlocate as Hscan.
  destruct (info_without_url int_of_str video_id output_file chunk_size
              verbose w response video title Hnet Hok Hscan Hvideo)
    as (w' & ? & ? & ? & ? & _ & ?).
  by exists w'.
Qed.

Lemma missing_url_reported_witness :
  ∃ w',
    download_from_video_id int_of_digits (py "1AbC_d-9") None 1024 false
      (serving ∅ (answer (py "status=fail&title=My%20Video") []))
    = (inl (), w')
    ∧ sent w' = [] ++ [info_request (py "1AbC_d-9")]
    ∧ fs w' = ∅ ∧ opens w' = []
    ∧ last (stdout w')
      = Some (Printed (py "Unable to retrieve the video URL for id "
                       ++ py "1AbC_d-9" ++ py ".")).
Proof.
  refine (missing_url_reported int_of_digits (py "1AbC_d-9") None 1024 false
            (serving ∅ (answer (py "status=fail&title=My%20Video") []))
            (answer (py "status=fail&title=My%20Video") [])
            None (Some (py "My Video")) _ _ _ _).
  - reflexivity.
  - reflexivity.
  - vm_compute. reflexivity.
  - reflexivity.
Defined.

(** ** The loop over a folder and [main] *)

Lemma lister_run (url : str) (verbose : bool) (w : World) :
  ∃ w',
    extract_bulk_data_ids_from_folder url verbose w
    = (inl (listing (net w (sent w) (folder_request url))), w')
    ∧ sent w' = sent w ++ [folder_request url]
    ∧ fs w' = fs w ∧ opens w' = opens w ∧ net w' = net w.
Proof.
  destruct (net w (sent w) (folder_request url)) as [response|e] eqn:Hnet.
  - destruct (lister_total url verbose w)
      as (data_ids & w' & Hrun & Hframe).
    exists w'. split; [|done]. rewrite Hrun. do 2 f_equal.
    cbn [listing]. destruct (http_error response) as [e|] eqn:Herr.
    + destruct (lister_failed url verbose w e) as (w2 & Hrun2 & _);
        [right; eauto|]. congruence.
    + assert (¬ (400 ≤ status_code response < 600)%Z) as Hstatus.
      { intros H%http_error_status. rewrite Herr in H. by destruct H. }
      pose proof (lister_fetched url verbose w response Hnet Hstatus) as Hids.
      rewrite Hrun in Hids. by injection Hids.
  - destruct (lister_total url verbose w)
      as (data_ids & w' & Hrun & Hframe).
    exists w'. split; [|done]. rewrite Hrun. do 2 f_equal. cbn [listing].
    destruct (lister_failed url verbose w e) as (w2 & Hrun2 & _);
      [by left|]. congruence.
Qed.

Lemma fetches_streamed (requests : list Request) :
  Forall (λ request, req_stream request = true) requests →
  fetches requests = [].
Proof.
  unfold fetches. induction 1 as [|request requests Hstream _ IH]; [done|].
  rewrite filter_cons_False; [done|]. by rewrite Hstream.
Qed.

Section Bulk.

Variable int_of_str : str → option Z.

(** One turn of the loop over the identifiers: the outcome of
    [download_from_video_id] decides how it goes on. *)
Lemma download_each_cons (data_id : str) (data_ids : list str)
    (idx total : nat) (output_file : option str) (chunk_size : Z)
    (verbose : bool) (w : World) :
  ∃ w0,
    sent w0 = sent w ∧ fs w0 = fs w ∧ opens w0 = opens w ∧ net w0 = net w
    ∧ download_each int_of_str (data_id :: data_ids) idx total output_file
        chunk_size verbose w
      = match download_from_video_id int_of_str data_id output_file
                chunk_size verbose w0 with
        | (inl _, w1) =>
            download_each int_of_str data_ids (S idx) total output_file
              chunk_size verbose w1
        | (inr (RequestException e), w1) =>
            download_each int_of_str data_ids (S idx) total output_file
              chunk_size verbose
              {| fs := fs w1;
                 stdout := stdout w1
                           ++ [Printed (py "Error accessing video info for "
                                        ++ data_id ++ py ": " ++ e)];
                 sent := sent w1; opens := opens w1; net := net w1;
                 open_error := open_error w1 |}
        | (inr e, w1) => (inr e, w1)
        end.
Proof.
  cbn [download_each].
  destruct verbose; exec; rewrite try_except_run;
    match goal with
    | |- context [download_from_video_id _ _ _ _ _ ?w0] => exists w0
    end;
    do 4 (split; [reflexivity|]);
    (destruct (download_from_video_id _ _ _ _ _ _) as [[[]|[e| |]] w1]);
    exec; reflexivity.
Qed.

Lemma download_each_no_request_error (data_ids : list str) (idx total : nat)
    (output_file : option str) (chunk_size : Z) (verbose : bool) (w : World)
    (e : str) (w' : World) :
  download_each int_of_str data_ids idx total output_file chunk_size verbose w
  ≠ (inr (RequestException e), w').
Proof.
  revert idx w. induction data_ids as [|data_id data_ids IH]; intros idx w.
  { done. }
  destruct (download_each_cons data_id data_ids idx total output_file
              chunk_size verbose w) as (w0 & _ & _ & _ & _ & ->).
  destruct (download_from_video_id _ _ _ _ _ _) as [[[]|[e1| |]] w1];
    [apply IH | apply IH | done | done].
Qed.

Lemma download_each_fetches (data_ids : list str) (idx total : nat)
    (output_file : option str) (chunk_size : Z) (verbose : bool) (w : World) :
  let outcome :=
    download_each int_of_str data_ids idx total output_file chunk_size
      verbose w in
  ∃ requests tried,
    sent outcome.2 = sent w ++ requests
    ∧ fetches requests = info_request <$> tried
    ∧ tried `prefix_of` data_ids
    ∧ (outcome.1 = inl () → tried = data_ids).
Proof.
  cbv zeta. revert idx w.
  induction data_ids as [|data_id data_ids IH]; intros idx w.
  { exists [], []. by rewrite app_nil_r. }
  destruct (download_each_cons data_id data_ids idx total output_file
              chunk_size verbose w) as (w0 & Hsent0 & _ & _ & _ & ->).
  destruct (per_identifier_requests int_of_str data_id output_file chunk_size
              verbose w0) as (more & Hsent & Hstream).
  rewrite Hsent0 in Hsent.
  assert (fetches (info_request data_id :: more) = [info_request data_id])
    as Hone.
  { unfold fetches. rewrite filter_cons_True by done.
    f_equal. by apply fetches_streamed. }
  destruct (download_from_video_id _ _ _ _ _ _) as [[[]|[e1| |]] w1];
    cbn [snd] in Hsent.
  - destruct (IH (S idx) w1) as (requests & tried & Hs & Hf & Hp & Hall).
    exists (info_request data_id :: more ++ requests), (data_id :: tried).
    rewrite Hs, Hsent, <- app_assoc. split; [done|].
    split; [|split; [by apply prefix_cons | by intros ->%Hall]].
    change (info_request data_id :: more ++ requests)
      with ((info_request data_id :: more) ++ requests).
    unfold fetches in *. by rewrite filter_app, Hone, Hf.
  - match goal with
    | |- context [download_each _ _ _ _ _ _ _ ?w2] =>
        assert (sent w2 = sent w1) as Hsame by done;
        generalize dependent w2
    end.
    intros logged Hsame.
    destruct (IH (S idx) logged) as (requests & tried & Hs & Hf & Hp & Hall).
    rewrite Hsame in Hs.
    exists (info_request data_id :: more ++ requests), (data_id :: tried).
    rewrite Hs, Hsent, <- app_assoc. split; [done|].
    split; [|split; [by apply prefix_cons | by intros ->%Hall]].
    change (info_request data_id :: more ++ requests)
      with ((info_request data_id :: more) ++ requests).
    unfold fetches in *. by rewrite filter_app, Hone, Hf.
  - exists (info_request data_id :: more), [data_id]. cbn [fst snd].
    split; [done|]. split; [done|].
    split; [by apply prefix_cons, prefix_nil | done].
  - exists (info_request data_id :: more), [data_id]. cbn [fst snd].
    split; [done|]. split; [done|].
    split; [by apply prefix_cons, prefix_nil | done].
Qed.

End Bulk.

Lemma main_no_request_error (int_of_str : str → option Z)
    (video_id_or_url : str) (output_file : option str) (chunk_size : Z)
    (verbose : bool) (w : World) (e : str) (w' : World) :
  main int_of_str video_id_or_url output_file chunk_size verbose w
  ≠ (inr (RequestException e), w').
Proof.
  unfold main. destruct (contains video_id_or_url (py "/folders/")).
  - destruct verbose; exec;
      match goal with
      | |- context [extract_bulk_data_ids_from_folder ?u ?v ?w0] =>
          destruct (lister_run u v w0) as (w1 & -> & _)
      end;
      exec; (destruct (listing _); exec;
             [done | apply download_each_no_request_error]).
  - cbv zeta. destruct verbose; exec; rewrite try_except_run;
      (destruct (download_from_video_id _ _ _ _ _ _) as [[[]|[e1| |]] w1]);
      exec; done.
Qed.

(** X11. [main] never lets a request error escape: whatever the
    remote side does, in folder mode or for a single identifier,
    [main] returns normally, or raises a [ValueError] (an unreadable
    [content-length], a file name [open] rejects) or the [OSError] of
    an [open] that fails; it never raises a [RequestException]. *)
Theorem main_catches_request_errors (int_of_str : str → option Z)
    (video_id_or_url : str) (output_file : option str) (chunk_size : Z)
    (verbose : bool) (w : World) :
  ∃ w',
    main int_of_str video_id_or_url output_file chunk_size verbose w
    = (inl (), w')
    ∨ main int_of_str video_id_or_url output_file chunk_size verbose w
      = (inr ValueError, w')
    ∨ main int_of_str video_id_or_url output_file chunk_size verbose w
      = (inr OSError, w').
Proof.
  pose proof (main_no_request_error int_of_str video_id_or_url output_file
                chunk_size verbose w) as Hnot.
  destruct (main _ _ _ _ _ _) as [[[]|[e| |]] w']; exists w'.
  - by left.
  - by destruct (Hnot e w').
  - right. by left.
  - right. by right.
Qed.

(** X12. In folder mode [main] first fetches the folder page and then
    makes one info fetch per listed identifier, in listing order:
    when it returns normally every listed identifier was tried, and
    when it stops early those tried form a prefix of the listing. *)
Theorem bulk_one_info_fetch_per_id (int_of_str : str → option Z)
    (video_id_or_url : str) (output_file : option str) (chunk_size : Z)
    (verbose : bool) (w : World) :
  contains video_id_or_url (py "/folders/") = true →
  let outcome :=
    main int_of_str video_id_or_url output_file chunk_size verbose w in
  let listed := listing (net w (sent w) (folder_request video_id_or_url)) in
  ∃ requests tried,
    sent outcome.2 = sent w ++ folder_request video_id_or_url :: requests
    ∧ fetches requests = info_request <$> tried
    ∧ tried `prefix_of` listed
    ∧ (outcome.1 = inl () → tried = listed).
Proof.
  intros Hfolder. cbv zeta. unfold main. rewrite Hfolder.
  destruct verbose; exec;
    match goal with
    | |- context [extract_bulk_data_ids_from_folder ?u ?v ?w0] =>
        destruct (lister_run u v w0) as (w1 & -> & Hsent1 & _)
    end;
    cbn [sent net] in *; exec;
    (destruct (listing _) as [|data_id data_ids] eqn:Hlisting; exec;
     [ exists [], []; cbn [sent]; by rewrite Hsent1
     | match goal with
       | |- context [download_each _ ?ids ?i ?t ?o ?c ?v ?w2] =>
           destruct (download_each_fetches int_of_str ids i t o c v w2)
             as (requests & tried & Hs & ?)
       end;
       exists requests, tried; split; [|done];
       rewrite Hs, Hsent1; by rewrite <- app_assoc ]).
Qed.

Lemma bulk_one_info_fetch_per_id_witness :
  let w := world ∅ (folder_then_refusals page_long) in
  let outcome := main int_of_digits folder_url None 1024 false w in
  ∃ requests tried,
    sent outcome.2 = sent w ++ folder_request folder_url :: requests
    ∧ fetches requests = info_request <$> tried
    ∧ tried `prefix_of` listing (net w (sent w) (folder_request folder_url))
    ∧ (outcome.1 = inl () →
       tried = listing (net w (sent w) (folder_request folder_url))).
Proof.
  cbv zeta.
  refine (bulk_one_info_fetch_per_id int_of_digits folder_url None 1024 false
            (world ∅ (folder_then_refusals page_long)) _).
  vm_compute. reflexivity.
Defined.

Example bulk_three_of_four :
  let page := py "<a " ++ attr (py "1AbCdE") ++ py "><a " ++ attr (py "ab")
              ++ py "><a " ++ attr (py "2FgHiJ") ++ py "><a "
              ++ attr (py "3KlMnO") ++ py ">" in
  let w := world ∅ (folder_then_refusals page) in
  sent (main int_of_digits folder_url None 1024 false w).2
  = [folder_request folder_url; info_request (py "1AbCdE");
     info_request (py "2FgHiJ"); info_request (py "3KlMnO")].
Proof. vm_compute. reflexivity. Qed.

(** X13. In the loop over a folder, an identifier whose info fetch
    fails is reported and skipped: the loop prints
    [Error accessing video info for <id>: <reason>] and goes on with
    the next identifier, having sent only the info request and opened
    or changed no file. *)
Theorem bulk_skips_failed_id (int_of_str : str → option Z) (data_id : str)
    (data_ids : list str) (idx total : nat) (output_file : option str)
    (chunk_size : Z) (verbose : bool) (w : World) (e : str) :
  net w (sent w) (info_request data_id) = Failed e
  ∨ (∃ response,
       net w (sent w) (info_request data_id) = Answered response
       ∧ http_error response = Some e) →
  ∃ w1,
    download_each int_of_str (data_id :: data_ids) idx total output_file
      chunk_size verbose w
    = download_each int_of_str data_ids (S idx) total output_file chunk_size
        verbose w1
    ∧ last (stdout w1)
      = Some (Printed (py "Error accessing video info for " ++ data_id
                       ++ py ": " ++ e))
    ∧ sent w1 = sent w ++ [info_request data_id]
    ∧ fs w1 = fs w ∧ opens w1 = opens w ∧ net w1 = net w.
Proof.
  intros Hfail.
  destruct (download_each_cons int_of_str data_id data_ids idx total
              output_file chunk_size verbose w)
    as (w0 & Hsent0 & Hfs0 & Hopens0 & Hnet0 & ->).
  rewrite <- Hsent0, <- Hnet0 in Hfail.
  destruct (info_fetch_failed int_of_str data_id output_file chunk_size
              verbose w0 e Hfail) as (w1 & -> & Hsent & Hfs & Hopens & Hnet).
  eexists. split; [reflexivity|]. cbn [fs stdout sent opens net].
  split; [apply last_snoc|]. by rewrite Hsent, Hfs, Hopens, Hnet, Hsent0.
Qed.

Lemma bulk_skips_failed_id_witness :
  ∃ w1,
    download_each int_of_digits [py "1AbCdE"; py "2FgHiJ"] 1 2 None 1024
      false offline
    = download_each int_of_digits [py "2FgHiJ"] 2 2 None 1024 false w1
    ∧ last (stdout w1)
      = Some (Printed (py "Error accessing video info for " ++ py "1AbCdE"
                       ++ py ": " ++ py "unreachable"))
    ∧ sent w1 = [] ++ [info_request (py "1AbCdE")]
    ∧ fs w1 = ∅ ∧ opens w1 = [] ∧ net w1 = net offline.
Proof.
  refine (bulk_skips_failed_id int_of_digits (py "1AbCdE") [py "2FgHiJ"] 1 2
            None 1024 false offline (py "unreachable") _).
  left. reflexivity.
Defined.

(** X14. For a single identifier or share link, a failed info fetch
    ends [main] normally with [Error fetching video info: <reason>] as
    its last line; the one request sent is the info request for
    [extract_drive_id] of the input, and no file is opened or
    changed. *)
Theorem single_fetch_error_reported (int_of_str : str → option Z)
    (video_id_or_url : str) (output_file : option str) (chunk_size : Z)
    (verbose : bool) (w : World) (e : str) :
  contains video_id_or_url (py "/folders/") = false →
  net w (sent w) (info_request (extract_drive_id video_id_or_url)) = Failed e
  ∨ (∃ response,
       net w (sent w) (info_request (extract_drive_id video_id_or_url))
       = Answered response
       ∧ http_error response = Some e) →
  ∃ w',
    main int_of_str video_id_or_url output_file chunk_size verbose w
    = (inl (), w')
    ∧ last (stdout w')
      = Some (Printed (py "Error fetching video info: " ++ e))
    ∧ sent w' = sent w ++ [info_request (extract_drive_id video_id_or_url)]
    ∧ fs w' = fs w ∧ opens w' = opens w.
Proof.
  intros Hsingle Hfail. unfold main. rewrite Hsingle. cbv zeta.
  destruct verbose; exec; rewrite try_except_run;
    match goal with
    | |- context [download_from_video_id _ ?id ?o ?c ?v ?w0] =>
        destruct (info_fetch_failed int_of_str id o c v w0 e Hfail)
          as (w1 & -> & Hsent & Hfs & Hopens & _)
    end;
    exec; eexists; (split; [reflexivity|]); cbn [fs stdout sent opens net];
    (split; [apply last_snoc|]); by rewrite Hsent, Hfs, Hopens.
Qed.

Lemma single_fetch_error_reported_witness :
  ∃ w',
    main int_of_digits share_url None 1024 false offline = (inl (), w')
    ∧ last (stdout w')
      = Some (Printed (py "Error fetching video info: " ++ py "unreachable"))
    ∧ sent w' = [] ++ [info_request (extract_drive_id share_url)]
    ∧ fs w' = ∅ ∧ opens w' = [].
Proof.
  refine (single_fetch_error_reported int_of_digits share_url None 1024 false
            offline (py "unreachable") _ _).
  - vm_compute. reflexivity.
  - left. reflexivity.
Defined.

(** X15. In folder mode, when the listing is empty (the page could not
    be fetched, or it holds no [data-id] value of 5 characters or
    more), [main] returns normally with
    [No data-IDs found in folder URL.] as its last line, after the
    folder request alone, and opens or changes no file. *)
Theorem empty_folder_reported (int_of_str : str → option Z)
    (video_id_or_url : str) (output_file : option str) (chunk_size : Z)
    (verbose : bool) (w : World) :
  contains video_id_or_url (py "/folders/") = true →
  listing (net w (sent w) (folder_request video_id_or_url)) = [] →
  ∃ w',
    main int_of_str video_id_or_url output_file chunk_size verbose w
    = (inl (), w')
    ∧ last (stdout w')
      = Some (Printed (py "No data-IDs found in folder URL."))
    ∧ sent w' = sent w ++ [folder_request video_id_or_url]
    ∧ fs w' = fs w ∧ opens w' = opens w.
Proof.
  intros Hfolder Hempty. unfold main. rewrite Hfolder.
  destruct verbose; exec;
    match goal with
    | |- context [extract_bulk_data_ids_from_folder ?u ?v ?w0] =>
        destruct (lister_run u v w0) as (w1 & -> & Hsent & Hfs & Hopens & _)
    end;
    cbn [fs stdout sent opens net] in *; rewrite Hempty; exec;
    eexists; (split; [reflexivity|]); cbn [fs stdout sent opens net];
    (split; [apply last_snoc|]); by rewrite Hsent, Hfs, Hopens.
Qed.

Lemma empty_folder_reported_witness :
  ∃ w',
    main int_of_digits folder_url None 1024 true
      (serving ∅ (answer page_x_x_ab []))
    = (inl (), w')
    ∧ last (stdout w')
      = Some (Printed (py "No data-IDs found in folder URL."))
    ∧ sent w' = [] ++ [folder_request folder_url]
    ∧ fs w' = ∅ ∧ opens w' = [].
Proof.
  refine (empty_folder_reported int_of_digits folder_url None 1024 true
            (serving ∅ (answer page_x_x_ab [])) _ _).
  - vm_compute. reflexivity.
  - vm_compute. reflexivity.
Defined.

(** X16. For a single identifier or share link, the first request of
    [main] is the info request for [extract_drive_id] of the input, and
    at most streamed download requests follow it. *)
Theorem single_requests_info_first (int_of_str : str → option Z)
    (video_id_or_url : str) (output_file : option str) (chunk_size : Z)
    (verbose : bool) (w : World) :
  contains video_id_or_url (py "/folders/") = false →
  ∃ more,
    sent (main int_of_str video_id_or_url output_file chunk_size verbose w).2
    = sent w ++ info_request (extract_drive_id video_id_or_url) :: more
    ∧ Forall (λ request, req_stream request = true) more.
Proof.
  intros Hsingle. unfold main. rewrite Hsingle. cbv zeta.
  destruct verbose; exec; rewrite try_except_run;
    match goal with
    | |- context [download_from_video_id _ ?id ?o ?c ?v ?w0] =>
        destruct (per_identifier_requests int_of_str id o c v w0)
          as (more & Hsent & Hstream);
        destruct (download_from_video_id int_of_str id o c v w0)
          as [[[]|[e1| |]] w1]
    end;
    cbn [snd sent] in Hsent; exec; by exists more.
Qed.

Lemma single_requests_info_first_witness :
  ∃ more,
    sent (main int_of_digits share_url None 1024 false
            (serving ∅ (answer info_example [[x01]]))).2
    = [] ++ info_request (extract_drive_id share_url) :: more
    ∧ Forall (λ request, req_stream request = true) more.
Proof.
  refine (single_requests_info_first int_of_digits share_url None 1024 false
            (serving ∅ (answer info_example [[x01]])) _).
  vm_compute. reflexivity.
Defined.

Example share_url_identifier :
  extract_drive_id share_url = py "1AbC_d-9"
  ∧ req_url (info_request (extract_drive_id share_url))
    = py "https://drive.google.com/u/0/get_video_info?docid=1AbC_d-9"
      ++ py "&drive_originator_app=303".
Proof. split; vm_compute; reflexivity. Qed.

(** ** File names and identifiers *)

Lemma is_invalid_elem_of (c : N) : c ∈ invalid → is_invalid c = true.
Proof.
  change invalid with [60; 62; 58; 34; 47; 92; 92; 124; 63; 42].
  intros Hc.
  repeat (apply elem_of_cons in Hc as [->|Hc]; [reflexivity|]).
  by apply elem_of_nil in Hc.
Qed.

Lemma cleaned_valid (title : str) :
  Forall (λ c, is_invalid c = false) (cleaned title).
Proof.
  unfold cleaned.
  destruct (strip_decompose ((λ c, if is_invalid c then ord "_" else c)
                             <$> title)) as (ws & ws' & Hs & _).
  assert (Forall (λ c, is_invalid c = false)
            ((λ c, if is_invalid c then ord "_" else c) <$> title)) as Hall.
  { apply Forall_fmap, Forall_forall. intros c _. simpl.
    by destruct (is_invalid c) eqn:Hc. }
  rewrite Hs in Hall. by apply Forall_app in Hall as [_ [? _]%Forall_app].
Qed.

Lemma cleaned_fixed (title : str) : cleaned (cleaned title) = cleaned title.
Proof.
  unfold cleaned at 1.
  assert ((λ c, if is_invalid c then ord "_" else c) <$> cleaned title
          = cleaned title) as ->.
  { rewrite <- (list_fmap_id (cleaned title)) at 2.
    apply list_fmap_ext. intros i c Hc.
    pose proof (cleaned_valid title) as Hvalid.
    rewrite Forall_lookup in Hvalid. by rewrite (Hvalid i c Hc). }
  apply strip_fixed; intros c; [apply strip_head | apply strip_last].
Qed.

(** X17. A name that [sanitize_filename] returns holds none of the
    characters of [invalid], neither starts nor ends with whitespace,
    and is no longer than the name given. *)
Theorem sanitize_filename_safe (name cleaned_name : str) :
  sanitize_filename (Some name) = Some cleaned_name →
  Forall (λ c, c ∉ invalid) cleaned_name
  ∧ (∀ c, head cleaned_name = Some c → isspace c = false)
  ∧ (∀ c, last cleaned_name = Some c → isspace c = false)
  ∧ (length cleaned_name ≤ length name)%nat.
Proof.
  rewrite sanitize_filename_cleaned. intros [= <-]. split; [|split; [|split]].
  - eapply Forall_impl; [apply cleaned_valid|].
    intros c Hc Hin%is_invalid_elem_of. congruence.
  - intros c. apply strip_head.
  - intros c. apply strip_last.
  - unfold cleaned.
    destruct (strip_decompose ((λ c, if is_invalid c then ord "_" else c)
                               <$> name)) as (ws & ws' & Hs & _).
    apply (f_equal length) in Hs.
    rewrite length_fmap, !length_app in Hs. lia.
Qed.

Lemma sanitize_filename_safe_witness :
  Forall (λ c, c ∉ invalid) (py "My_Video_Name_")
  ∧ (∀ c, head (py "My_Video_Name_") = Some c → isspace c = false)
  ∧ (∀ c, last (py "My_Video_Name_") = Some c → isspace c = false)
  ∧ (length (py "My_Video_Name_") ≤ length (py " My:Video/Name? "))%nat.
Proof.
  refine (sanitize_filename_safe (py " My:Video/Name? ")
            (py "My_Video_Name_") _).
  vm_compute. reflexivity.
Defined.

(** X18. [sanitize_filename] is idempotent: applied to its own result
    ([None] included) it changes nothing. *)
Theorem sanitize_filename_idempotent (name : option str) :
  sanitize_filename (sanitize_filename name) = sanitize_filename name.
Proof.
  destruct name as [name|]; [|done].
  rewrite !sanitize_filename_cleaned. by rewrite cleaned_fixed.
Qed.

(** X19. What [extract_drive_id] returns is either the input itself or
    a non-empty string of characters of [[a-zA-Z0-9_-]] that stands in
    the input right after [/file/d/]. *)
Theorem extract_drive_id_sound (input_str : str) :
  extract_drive_id input_str = input_str
  ∨ (extract_drive_id input_str ≠ []
     ∧ Forall (λ c, is_id_char c = true) (extract_drive_id input_str)
     ∧ ∃ pre post,
         input_str = pre ++ file_d ++ extract_drive_id input_str ++ post).
Proof.
  unfold extract_drive_id.
  destruct (search_drive_pattern input_str) as [token|] eqn:Hsearch;
    [right | by left].
  apply search_some_segment in Hsearch
    as (i & post & Hdrop & Hne & Hrun & _).
  split; [done|]. split; [done|]. exists (take i input_str), post.
  by rewrite <- Hdrop, take_drop.
Qed.

(** X21. An unreadable [content-length] stops the loop over a folder:
    when the download for one identifier raises [ValueError], the loop
    raises it too, and the identifiers after it get no request at
    all. *)
Theorem bulk_aborts_on_unreadable_length (int_of_str : str → option Z)
    (data_id : str) (data_ids : list str) (idx total : nat)
    (output_file : option str) (chunk_size : Z) (verbose : bool) (w : World)
    (info reply : Response) (video : str) (title : option str)
    (header : str) :
  let filename := output_filename output_file title data_id in
  let request := download_request video (cookies info) (fs w !! filename) in
  net w (sent w) (info_request data_id) = Answered info →
  http_error info = None →
  (get_video_url (text info) verbose w).1 = inl (Some video, title) →
  video ≠ [] →
  net w (sent w ++ [info_request data_id]) request = Answered reply →
  status_code reply = 200%Z ∨ status_code reply = 206%Z →
  content_length reply = Some header →
  int_of_str header = None →
  ∃ w',
    download_each int_of_str (data_id :: data_ids) idx total output_file
      chunk_size verbose w
    = (inr ValueError, w')
    ∧ sent w' = sent w ++ [info_request data_id; request]
    ∧ fs w' = fs w ∧ opens w' = opens w.
Proof.
  cbv zeta. intros Hinfo Hok Hlocate Hvideo Hreply Hstatus Hheader Hint.
  rewrite get_video_url_result in Hlocate. injection Hlocate as Hscan.
  destruct (download_each_cons int_of_str data_id data_ids idx total
              output_file chunk_size verbose w)
    as (w0 & Hsent0 & Hfs0 & Hopens0 & Hnet0 & ->).
  rewrite <- Hsent0, <- Hnet0 in Hinfo.
  destruct (info_with_url int_of_str data_id output_file chunk_size verbose
              w0 info (Some video) title Hinfo Hok Hscan)
    as (w1 & -> & Hsent1 & Hfs1 & Hopens1 & Hnet1).
  { by apply truthy_nonempty. }
  cbn [default from_option]. unfold id.
  rewrite <- Hnet0, <- Hnet1, <- Hsent0, <- Hsent1, <- Hfs0, <- Hfs1 in Hreply.
  destruct (download_file_value_error int_of_str video (cookies info)
              (output_filename output_file title data_id) chunk_size verbose
              w1 reply header Hreply Hstatus Hheader Hint)
    as (w2 & -> & Hsent2 & Hopens2 & Hfs2).
  exists w2. split; [done|].
  rewrite Hsent2, Hsent1, Hsent0, Hfs2, Hfs1, Hfs0, Hopens2, Hopens1, Hopens0.
  by rewrite <- app_assoc.
Qed.

Lemma bulk_aborts_on_unreadable_length_witness :
  let w := world ∅ (info_then (answer info_example []) garbled_length) in
  let filename := output_filename None (Some (py "My Video")) (py "1AbCdE") in
  let request := download_request stream_url ∅ (fs w !! filename) in
  ∃ w',
    download_each int_of_digits [py "1AbCdE"; py "2FgHiJ"] 1 2 None 1024
      false w
    = (inr ValueError, w')
    ∧ sent w' = sent w ++ [info_request (py "1AbCdE"); request]
    ∧ fs w' = fs w ∧ opens w' = opens w.
Proof.
  cbv zeta.
  refine (bulk_aborts_on_unreadable_length int_of_digits (py "1AbCdE")
            [py "2FgHiJ"] 1 2 None 1024 false
            (world ∅ (info_then (answer info_example []) garbled_length))
            (answer info_example []) garbled_length stream_url
            (Some (py "My Video")) (py "12 bytes") _ _ _ _ _ _ _ _).
  - reflexivity.
  - reflexivity.
  - vm_compute. reflexivity.
  - discriminate.
  - reflexivity.
  - by left.
  - reflexivity.
  - vm_compute. reflexivity.
Defined.
Lemma create_bulk_video_id_drive_url_inj (a b : str) :
  create_bulk_video_id_drive_url a = create_bulk_video_id_drive_url b → a = b.
Proof.
  unfold create_bulk_video_id_drive_url. intros Heq.
  apply app_inv_head in Heq. by apply app_inv_tail in Heq.
Qed.

(** X22. The info requests for the identifiers the folder lister
    returns are pairwise different: the lister returns no identifier
    twice, and [create_bulk_video_id_drive_url] gives distinct
    identifiers distinct info URLs. *)
Theorem listing_info_requests_distinct (url : str) (verbose : bool)
    (w : World) :
  ∃ data_ids w',
    extract_bulk_data_ids_from_folder url verbose w = (inl data_ids, w')
    ∧ NoDup data_ids
    ∧ NoDup (create_bulk_video_id_drive_url <$> data_ids)
    ∧ NoDup (info_request <$> data_ids).
Proof.
  destruct (lister_run url verbose w) as (w' & Hrun & _).
  eexists. exists w'. split; [exact Hrun|].
  assert (NoDup (listing (net w (sent w) (folder_request url)))) as Hids.
  { destruct (net w (sent w) (folder_request url)) as [response|e];
      cbn [listing]; [|constructor].
    destruct (http_error response); [constructor|].
    apply first_occurrences_NoDup. }
  split; [done|]. split.
  - apply NoDup_fmap_2; [|done].
    intros a b. apply create_bulk_video_id_drive_url_inj.
  - apply NoDup_fmap_2; [|done].
    intros a b Heq%(f_equal req_url).
    by apply create_bulk_video_id_drive_url_inj.
Qed.
